(** * nuImages dataset adapter: a shallow embedding of [nuimages_dataset.py]

    The development models the [NuImagesDataset] class (construction, length,
    item access with its two per-image caches) and the module-level helper
    [get_instance_mask], and proves or refutes the properties stated for them.

    External collaborators (the nuImages database object, the mask codec,
    the image reader, and the two category tables of [utils.utils]) are not
    part of the two source files; they are taken as data of an environment
    record and of the [NuImages] record. *)

From Stdlib Require Import ZArith String List Permutation Sorted OrdersEx.
From stdpp Require Import base option list gmap strings.

Open Scope Z_scope.

(** ** Exceptions and results

    Every Python exception the modelled code can raise is an [exn]; a
    computation that may raise returns a [result]. *)

Inductive exn : Set :=
| IndexError
| KeyError
| IOError
| DecodeError
| OtherError (what : string).

Inductive result (A : Type) : Type :=
| Ok (a : A)
| Raise (e : exn).

Arguments Ok {A} a.
Arguments Raise {A} e.

#[global] Instance result_ret : MRet result := fun _ a => Ok a.
#[global] Instance result_bind : MBind result :=
  fun _ _ f m => match m with Ok a => f a | Raise e => Raise e end.

Definition of_option {A} (e : exn) (o : option A) : result A :=
  match o with Some a => Ok a | None => Raise e end.

#[global] Instance exn_eq_dec : EqDecision exn.
Proof. solve_decision. Defined.

(** ** Data model *)

(** [object_ann['bbox']]: [xmin, ymin, xmax, ymax], integers in the schema. *)
Record BBox : Set := { xmin : Z; ymin : Z; xmax : Z; ymax : Z }.

(** [object_ann['mask']]: a run-length encoded mask (a dict with [size] and
    [counts]); its decoding belongs to the codec library. *)
Record EncodedMask : Set := { rle_size : nat * nat; rle_counts : string }.

Record ObjectAnn : Set := {
  token : string;
  sample_data_token : string;
  category_token : string;
  bbox : BBox;
  mask : option EncodedMask
}.

Record Sample : Set := { key_camera_token : string }.

Record SampleData : Set := { filename : string; height : nat; width : nat }.

Record Category : Set := { c_token : string; name : string }.

(** The [NuImages] database object: its three tables that the dataset reads,
    its data root, and its [get(table, token)] lookup for the two tables the
    dataset queries ([None] stands for the [KeyError] of a missing token). *)
Record NuImages : Type := {
  object_ann : list ObjectAnn;
  sample : list Sample;
  category : list Category;
  dataroot : string;
  get_sample_data : string -> option SampleData;
  get_category : string -> option Category
}.

(** A two-dimensional numpy array, row-major: [nd_shape = (rows, columns)]. *)
Record ndarray : Set := { nd_shape : nat * nat; nd_data : list Z }.

(** A PIL image after [convert("RGB")]; [size] is [(width, height)]. *)
Record Image : Set := { size : nat * nat; rgb : list Z }.

#[global] Instance BBox_eq_dec : EqDecision BBox.
Proof. solve_decision. Defined.
#[global] Instance EncodedMask_eq_dec : EqDecision EncodedMask.
Proof. solve_decision. Defined.
#[global] Instance ObjectAnn_eq_dec : EqDecision ObjectAnn.
Proof. solve_decision. Defined.
#[global] Instance ndarray_eq_dec : EqDecision ndarray.
Proof. solve_decision. Defined.

(** What the two source files import from outside:
    [mask_decode] (nuimages.utils.utils), the image reader
    [Image.open(root / filename).convert("RGB")], and the tables
    [NAME_MAPPING] and [CLASS_TO_ID] of [utils.utils]. *)
Record Env : Type := {
  mask_decode : EncodedMask -> result ndarray;
  open_rgb : string -> string -> result Image;
  NAME_MAPPING : gmap string string;
  CLASS_TO_ID : gmap string Z
}.

(** ** numpy helpers *)

(** [np.zeros((h, w)).astype('int32')] *)
Definition zeros (h w : nat) : ndarray :=
  {| nd_shape := (h, w); nd_data := replicate (h * w) 0 |}.

(** Pixel [p] (row-major position) of an array; [0] outside the data. *)
Definition pixel (a : ndarray) (p : nat) : Z := default 0 (nd_data a !! p).

(** [layer[mask == 1] = i]: boolean-mask assignment.  numpy raises
    [IndexError] when the boolean index does not have the indexed array's
    shape.  The layer is an int32 array; indices are list positions, far
    below 2^31, so they are stored as they are. *)
Definition assign_where_one (layer m : ndarray) (i : Z) : result ndarray :=
  if decide (nd_shape m = nd_shape layer) then
    Ok {| nd_shape := nd_shape layer;
          nd_data := imap (fun p v => if decide (pixel m p = 1) then i else v)
                          (nd_data layer) |}
  else Raise IndexError.

(** [a == v] as a 0/1 array of the same shape. *)
Definition eq_scalar (a : ndarray) (v : Z) : ndarray :=
  {| nd_shape := nd_shape a;
     nd_data := (fun x => if decide (x = v) then 1 else 0) <$> nd_data a |}.

(** ** Python helpers *)

(** [<] on [str]: lexicographic on code points. *)
Definition str_lt (a b : string) : bool :=
  match String_as_OT.compare a b with Lt => true | _ => false end.

(** [sorted(l, key=key)]: Python's sort is stable, and the result of a stable
    sort is determined by the input, so it is modelled by stable insertion:
    an element goes in front of the first element that is not smaller. *)
Fixpoint insert_sorted {A} (key : A -> string) (x : A) (l : list A) : list A :=
  match l with
  | [] => [x]
  | y :: ys =>
      if str_lt (key y) (key x) then y :: insert_sorted key x ys
      else x :: y :: ys
  end.

Fixpoint sorted {A} (key : A -> string) (l : list A) : list A :=
  match l with
  | [] => []
  | x :: xs => insert_sorted key x (sorted key xs)
  end.

(** [enumerate(l, start)] *)
Fixpoint enumerate {A} (start : nat) (l : list A) : list (nat * A) :=
  match l with
  | [] => []
  | x :: xs => (start, x) :: enumerate (S start) xs
  end.

(** A [for] loop whose body may raise. *)
Fixpoint for_each {A S} (body : S -> A -> result S) (l : list A) (s : S)
  : result S :=
  match l with
  | [] => Ok s
  | x :: xs => s' ← body s x; for_each body xs s'
  end.

(** ** [get_instance_mask] *)

Section Rasterizer.
Context (E : Env) (nuimages : NuImages).

(** Body of the drawing loop (lines 271-281). *)
Definition draw_instance (instanceseg_mask : ndarray) (ia : nat * ObjectAnn)
  : result ndarray :=
  let '(i, ann) := ia in
  _ ← of_option KeyError (get_category nuimages (category_token ann));
  match mask ann with
  | None => Ok instanceseg_mask
  | Some enc =>
      m ← mask_decode E enc;
      assign_where_one instanceseg_mask m (Z.of_nat i)
  end.

Definition get_instance_mask (image : Image) (object_anns : list ObjectAnn)
  : result ndarray :=
  let '(width, height) := size image in
  let instanceseg_mask := zeros height width in
  let object_anns := sorted token object_anns in
  for_each draw_instance (enumerate 1 object_anns) instanceseg_mask.
End Rasterizer.

(** ** Tensors and targets *)

Inductive dtype : Set := float32 | int64 | uint8.

(** A torch tensor: element type, shape, and row-major contents.  Contents
    are kept as mathematical integers (box coordinates are integers in the
    schema).  The conversion of [torch.as_tensor] to float32 and int64 is not
    modelled, neither its rounding nor its overflow error; nothing below
    states a value of [area] or that a target with objects is always
    built. *)
Record Tensor : Set := { dt : dtype; shape : list nat; data : list Z }.

#[global] Instance dtype_eq_dec : EqDecision dtype.
Proof. solve_decision. Defined.
#[global] Instance Tensor_eq_dec : EqDecision Tensor.
Proof. solve_decision. Defined.

(** [t.shape[0]] *)
Definition shape0 (t : Tensor) : nat := hd 0%nat (shape t).

(** [torch.zeros(shape, dtype=d)] *)
Definition t_zeros (d : dtype) (sh : list nat) : Tensor :=
  {| dt := d; shape := sh; data := replicate (foldr Nat.mul 1%nat sh) 0 |}.

Record Target : Set := {
  boxes : Tensor;
  labels : Tensor;
  masks : Tensor;
  image_id : Tensor;
  area : Tensor;
  iscrowd : Tensor
}.

#[global] Instance Target_eq_dec : EqDecision Target.
Proof. solve_decision. Defined.

(** The optional transform hook: a callable that returns a new image and
    target, or raises. *)
Definition Transform : Type := Image -> Target -> result (Image * Target).

(** [l[i]] for a Python integer [i]: negative indices count from the end. *)
Definition py_index {A} (l : list A) (i : Z) : result A :=
  let n := Z.of_nat (length l) in
  if decide (0 <= i) then of_option IndexError (l !! Z.to_nat i)
  else if decide (- n <= i) then of_option IndexError (l !! Z.to_nat (n + i))
  else Raise IndexError.

(** ** The dataset object *)

Record NuImagesDataset : Type := {
  has_ann : bool;
  nuimages : NuImages;
  root_path : string;
  transforms : option Transform;
  samples_with_objects : list nat;
  _category_name_to_id : gmap string nat;
  category_names : list string;
  object_anns_dict : gmap string (list ObjectAnn);
  _cat_token_to_label : gmap string (option Z);
  _kept_cache : gmap string (list nat * list Z);
  _inst_mask_cache : gmap string ndarray
}.

(** [self._kept_cache[k] = v] and [self._inst_mask_cache[k] = v] *)
Definition set_kept_cache (self : NuImagesDataset) (k : string)
  (v : list nat * list Z) : NuImagesDataset :=
  {| has_ann := has_ann self; nuimages := nuimages self;
     root_path := root_path self; transforms := transforms self;
     samples_with_objects := samples_with_objects self;
     _category_name_to_id := _category_name_to_id self;
     category_names := category_names self;
     object_anns_dict := object_anns_dict self;
     _cat_token_to_label := _cat_token_to_label self;
     _kept_cache := <[k := v]> (_kept_cache self);
     _inst_mask_cache := _inst_mask_cache self |}.

Definition set_inst_mask_cache (self : NuImagesDataset) (k : string)
  (v : ndarray) : NuImagesDataset :=
  {| has_ann := has_ann self; nuimages := nuimages self;
     root_path := root_path self; transforms := transforms self;
     samples_with_objects := samples_with_objects self;
     _category_name_to_id := _category_name_to_id self;
     category_names := category_names self;
     object_anns_dict := object_anns_dict self;
     _cat_token_to_label := _cat_token_to_label self;
     _kept_cache := _kept_cache self;
     _inst_mask_cache := <[k := v]> (_inst_mask_cache self) |}.

(** *** [__init__] *)

(** Lines 59-61: the set of image tokens that own a raw annotation. *)
Definition sd_tokens_with_objects (anns : list ObjectAnn) : gset string :=
  foldl (fun s o => {[ sample_data_token o ]} ∪ s) ∅ anns.

(** Lines 62-66: positions of the samples whose image is in the set. *)
Definition select_samples (tokens : gset string) (samples : list Sample)
  : list nat :=
  foldl (fun acc '(i, s) =>
           if decide (key_camera_token s ∈ tokens) then acc ++ [i] else acc)
        [] (enumerate 0 samples).

(** Lines 74-79: category ids start at 1; id 0 is the background. *)
Definition build_category_ids (cats : list Category)
  : gmap string nat * list string :=
  foldl (fun '(ids, names) '(i, c) =>
           (<[name c := S i]> ids, names ++ [name c]))
        (∅, ["background"]) (enumerate 0 cats).

(** Lines 83-94: one step of building the per-image annotation lists. *)
Definition add_object_ann (d : gmap string (list ObjectAnn)) (o : ObjectAnn)
  : gmap string (list ObjectAnn) :=
  let object_sd_token := sample_data_token o in
  let d := match d !! object_sd_token with
           | None => <[object_sd_token := []]> d
           | Some _ => d
           end in
  let b := bbox o in
  let w := xmax b - xmin b in
  let h := ymax b - ymin b in
  if (0 <? w) && (0 <? h) then alter (fun l => l ++ [o]) object_sd_token d
  else d.

Definition build_object_anns_dict (anns : list ObjectAnn)
  : gmap string (list ObjectAnn) :=
  foldl add_object_ann ∅ anns.

Section Dataset.
Context (E : Env).

(** Lines 96-100: category token to reduced label, [None] when unmapped;
    [CLASS_TO_ID[coarse]] raises [KeyError] on a missing coarse name. *)
Definition add_cat_label (m : gmap string (option Z)) (cat : Category)
  : result (gmap string (option Z)) :=
  let fine := name cat in
  match NAME_MAPPING E !! fine with
  | None => Ok (<[c_token cat := None]> m)
  | Some coarse =>
      id ← of_option KeyError (CLASS_TO_ID E !! coarse);
      Ok (<[c_token cat := Some id]> m)
  end.

(** The constructor.  The type assertion of line 51 holds by typing, and
    the two progress messages have no effect on the object. *)
Definition __init__ (nuimages : NuImages) (transforms : option Transform)
  (remove_empty : bool) : result NuImagesDataset :=
  let has_ann := negb (bool_decide (length (object_ann nuimages) = 0%nat)) in
  let samples_with_objects :=
    if remove_empty && has_ann then
      select_samples (sd_tokens_with_objects (object_ann nuimages))
                     (sample nuimages)
    else seq 0 (length (sample nuimages)) in
  let '(ids, names) := build_category_ids (category nuimages) in
  let object_anns_dict := build_object_anns_dict (object_ann nuimages) in
  ct2l ← for_each add_cat_label (category nuimages) ∅;
  Ok {| has_ann := has_ann; nuimages := nuimages;
        root_path := dataroot nuimages; transforms := transforms;
        samples_with_objects := samples_with_objects;
        _category_name_to_id := ids; category_names := names;
        object_anns_dict := object_anns_dict;
        _cat_token_to_label := ct2l;
        _kept_cache := ∅; _inst_mask_cache := ∅ |}.
End Dataset.

(** *** [__len__] *)

Definition __len__ (self : NuImagesDataset) : nat :=
  length (samples_with_objects self).

(** *** [__getitem__] *)

(** Lines 146-153: positions and labels of the annotations whose category
    has a reduced label. *)
Definition keep_step (ct2l : gmap string (option Z))
  (acc : list nat * list Z) (ia : nat * ObjectAnn) : list nat * list Z :=
  let '(i, ann) := ia in
  match mjoin (ct2l !! category_token ann) with
  | Some lbl => (acc.1 ++ [i], acc.2 ++ [lbl])
  | None => acc
  end.

Definition compute_kept (ct2l : gmap string (option Z))
  (object_anns : list ObjectAnn) : list nat * list Z :=
  foldl (keep_step ct2l) ([], []) (enumerate 0 object_anns).

(** Lines 161-168: the target of an image without kept annotations. *)
Definition empty_target (image : Image) (idx : Z) : Target :=
  let '(w, h) := size image in
  {| boxes := t_zeros float32 [0; 4]%nat;
     labels := t_zeros int64 [0%nat];
     masks := t_zeros uint8 [0; h; w]%nat;
     image_id := {| dt := int64; shape := [1%nat]; data := [idx] |};
     area := t_zeros float32 [0%nat];
     iscrowd := t_zeros int64 [0%nat] |}.

Definition bbox_row (b : BBox) : list Z := [xmin b; ymin b; xmax b; ymax b].

(** [(boxes[:, 3] - boxes[:, 1]) * (boxes[:, 2] - boxes[:, 0])] *)
Definition bbox_area (b : BBox) : Z := (ymax b - ymin b) * (xmax b - xmin b).

(** Lines 173-233: the target of an image with kept annotations, from the
    kept boxes and labels and the image's instance layer. *)
Definition full_target (object_anns : list ObjectAnn)
  (kept_indices : list nat) (kept_labels : list Z) (kept_boxes : list BBox)
  (instance_mask : ndarray) (idx : Z) : Target :=
  let boxes :=
    {| dt := float32; shape := [length kept_boxes; 4%nat];
       data := kept_boxes ≫= bbox_row |} in
  let labels :=
    {| dt := int64; shape := [length kept_labels]; data := kept_labels |} in
  let masks_np :=
    (fun i : nat => eq_scalar instance_mask (Z.of_nat i + 1)) <$> kept_indices in
  let masks :=
    {| dt := uint8;
       shape := [length masks_np; (nd_shape instance_mask).1;
                 (nd_shape instance_mask).2];
       data := masks_np ≫= nd_data |} in
  let image_id := {| dt := int64; shape := [1%nat]; data := [idx] |} in
  let area :=
    if decide (shape0 boxes = 0%nat) then
      {| dt := float32; shape := [0%nat]; data := [] |}
    else
      {| dt := float32; shape := [length kept_boxes];
         data := bbox_area <$> kept_boxes |} in
  let iscrowd := t_zeros int64 [length object_anns] in
  {| boxes := boxes; labels := labels; masks := masks;
     image_id := image_id; area := area; iscrowd := iscrowd |}.

(** Lines 169-171 and 235-238: the item that is returned, through the hook
    when there is one. *)
Definition apply_transforms (tr : option Transform) (image : Image)
  (target : Target) : result (Image * option Target) :=
  match tr with
  | None => Ok (image, Some target)
  | Some f => '(image, target) ← f image target; Ok (image, Some target)
  end.

Section GetItem.
Context (E : Env).

(** Lines 129-135: from the index to the image token and the image. *)
Definition load_image (self : NuImagesDataset) (idx : Z)
  : result (string * Image) :=
  i ← py_index (samples_with_objects self) idx;
  sample ← of_option IndexError (sample (nuimages self) !! i);
  let sd_token := key_camera_token sample in
  sample_data ← of_option KeyError (get_sample_data (nuimages self) sd_token);
  image ← open_rgb E (root_path self) (filename sample_data);
  Ok (sd_token, image).

(** Lines 144-156: the kept indices and labels, through the cache. *)
Definition kept_for (self : NuImagesDataset) (sd_token : string)
  (object_anns : list ObjectAnn)
  : (list nat * list Z) * NuImagesDataset :=
  match _kept_cache self !! sd_token with
  | None =>
      let kept := compute_kept (_cat_token_to_label self) object_anns in
      (kept, set_kept_cache self sd_token kept)
  | Some kept => (kept, self)
  end.

(** Lines 205-210: the instance layer, through the cache. *)
Definition instance_mask_for (self : NuImagesDataset) (sd_token : string)
  (image : Image) (object_anns : list ObjectAnn)
  : result ndarray * NuImagesDataset :=
  match _inst_mask_cache self !! sd_token with
  | None =>
      match get_instance_mask E (nuimages self) image object_anns with
      | Ok instance_mask =>
          (Ok instance_mask, set_inst_mask_cache self sd_token instance_mask)
      | Raise e => (Raise e, self)
      end
  | Some instance_mask => (Ok instance_mask, self)
  end.

(** The item and the dataset object after the call (its caches may have
    been filled, also when the call raises later on). *)
Definition __getitem__ (self : NuImagesDataset) (idx : Z)
  : result (Image * option Target) * NuImagesDataset :=
  match load_image self idx with
  | Raise e => (Raise e, self)
  | Ok (sd_token, image) =>
    if negb (has_ann self) then (Ok (image, None), self) else
    match object_anns_dict self !! sd_token with
    | None => (Raise KeyError, self)
    | Some object_anns =>
      let '((kept_indices, kept_labels), self) :=
        kept_for self sd_token object_anns in
      match kept_indices with
      | [] =>
          (apply_transforms (transforms self) image
             (empty_target image idx), self)
      | _ :: _ =>
          match mapM (fun i : nat =>
                        of_option IndexError (bbox <$> object_anns !! i))
                     kept_indices with
          | Raise e => (Raise e, self)
          | Ok kept_boxes =>
              match instance_mask_for self sd_token image object_anns with
              | (Raise e, self) => (Raise e, self)
              | (Ok instance_mask, self) =>
                  (apply_transforms (transforms self) image
                     (full_target object_anns kept_indices kept_labels
                        kept_boxes instance_mask idx), self)
              end
          end
      end
    end
  end.

(** The dataset object after a sequence of [__getitem__] calls. *)
Definition after_calls (self : NuImagesDataset) (idxs : list Z)
  : NuImagesDataset :=
  foldl (fun s idx => (__getitem__ s idx).2) self idxs.
End GetItem.

(** *** [get_height_and_width] *)

(** Lines 240-243: the height and width recorded for the image of a sample;
    the image file is not read. *)
Definition get_height_and_width (self : NuImagesDataset) (idx : Z)
  : result (nat * nat) :=
  i ← py_index (samples_with_objects self) idx;
  sample ← of_option IndexError (sample (nuimages self) !! i);
  sample_data ← of_option KeyError
    (get_sample_data (nuimages self) (key_camera_token sample));
  Ok (height sample_data, width sample_data).

(** ** The training driver ([finetune_maskrcnn.py])

    Line 37: the number of classes handed to the model, one more than the
    number of categories, for the background class. *)
Definition num_classes (nuimages : NuImages) : nat :=
  (length (category nuimages) + 1)%nat.

(** ** Vocabulary of the properties *)

(** [a] may stand before [b] in a list sorted by [key]: the key of [b] is
    not smaller than the key of [a]. *)
Definition key_le {A} (key : A -> string) (a b : A) : Prop :=
  str_lt (key b) (key a) = false.

(** The decoded mask of [ann] marks pixel [p] (row-major position). *)
Definition covers (E : Env) (ann : ObjectAnn) (p : nat) : bool :=
  match mask ann with
  | Some enc =>
      match mask_decode E enc with
      | Ok m => bool_decide (pixel m p = 1)
      | Raise _ => false
      end
  | None => false
  end.

(** The annotation [a] with its encoded mask replaced by [m]. *)
Definition with_mask (a : ObjectAnn) (m : option EncodedMask) : ObjectAnn :=
  {| token := token a; sample_data_token := sample_data_token a;
     category_token := category_token a; bbox := bbox a; mask := m |}.

(** The box of [o] has positive width and positive height. *)
Definition nondegenerate (o : ObjectAnn) : Prop :=
  0 < xmax (bbox o) - xmin (bbox o) /\ 0 < ymax (bbox o) - ymin (bbox o).

#[global] Instance nondegenerate_dec o : Decision (nondegenerate o).
Proof. unfold nondegenerate. apply _. Defined.

(** The raw annotations of the image [sd], and those among them that the
    annotation index keeps. *)
Definition raw_annotations (nu : NuImages) (sd : string) : list ObjectAnn :=
  filter (fun o => sample_data_token o = sd) (object_ann nu).

Definition valid_annotations (nu : NuImages) (sd : string) : list ObjectAnn :=
  filter nondegenerate (raw_annotations nu sd).

(** The image of sample [s] owns at least one raw annotation. *)
Definition owns_raw (nu : NuImages) (s : Sample) : Prop :=
  Exists (fun o => sample_data_token o = key_camera_token s) (object_ann nu).

#[global] Instance owns_raw_dec nu s : Decision (owns_raw nu s).
Proof. unfold owns_raw. apply _. Defined.

(** The reduced label of an annotation, [None] when its category is
    unmapped. *)
Definition label_of (ct2l : gmap string (option Z)) (a : ObjectAnn)
  : option Z :=
  mjoin (ct2l !! category_token a).

(** Positions (counted from [k]) and labels of the annotations with a label. *)
Fixpoint kept_of (ct2l : gmap string (option Z)) (k : nat)
  (l : list ObjectAnn) : list (nat * Z) :=
  match l with
  | [] => []
  | a :: l =>
      match label_of ct2l a with
      | Some lbl => (k, lbl) :: kept_of ct2l (S k) l
      | None => kept_of ct2l (S k) l
      end
  end.

(** The image behind an image token, as [__getitem__] reads it. *)
Definition image_of (E : Env) (self : NuImagesDataset) (sd_token : string)
  : result Image :=
  sample_data ← of_option KeyError (get_sample_data (nuimages self) sd_token);
  open_rgb E (root_path self) (filename sample_data).

(** The target of an image computed without the caches. *)
Definition target_of (E : Env) (self : NuImagesDataset)
  (object_anns : list ObjectAnn) (image : Image) (idx : Z) : result Target :=
  let kept := compute_kept (_cat_token_to_label self) object_anns in
  match kept.1 with
  | [] => Ok (empty_target image idx)
  | _ :: _ =>
      kept_boxes ← mapM (fun i : nat =>
                           of_option IndexError (bbox <$> object_anns !! i))
                        kept.1;
      instance_mask ← get_instance_mask E (nuimages self) image object_anns;
      Ok (full_target object_anns kept.1 kept.2 kept_boxes instance_mask idx)
  end.

(** The caches hold what a fresh computation would give. *)
Record coherent (E : Env) (self : NuImagesDataset) : Prop := {
  kept_cache_ok : forall sd kept,
    _kept_cache self !! sd = Some kept ->
    exists anns, object_anns_dict self !! sd = Some anns /\
                 kept = compute_kept (_cat_token_to_label self) anns;
  inst_mask_cache_ok : forall sd layer,
    _inst_mask_cache self !! sd = Some layer ->
    exists anns image,
      object_anns_dict self !! sd = Some anns /\
      image_of E self sd = Ok image /\
      get_instance_mask E (nuimages self) image anns = Ok layer
}.

(** Two dataset objects that differ in their caches at most. *)
Definition same_index (a b : NuImagesDataset) : Prop :=
  has_ann a = has_ann b /\ nuimages a = nuimages b /\
  root_path a = root_path b /\ transforms a = transforms b /\
  samples_with_objects a = samples_with_objects b /\
  object_anns_dict a = object_anns_dict b /\
  _cat_token_to_label a = _cat_token_to_label b.

(** The item at [idx] computed without the caches. *)
Definition item_of (E : Env) (self : NuImagesDataset) (idx : Z)
  : result (Image * option Target) :=
  '(sd_token, image) ← load_image E self idx;
  if negb (has_ann self) then Ok (image, None) else
  object_anns ← of_option KeyError (object_anns_dict self !! sd_token);
  target ← target_of E self object_anns image idx;
  apply_transforms (transforms self) image target.

(** [torch.as_tensor(kept_boxes, dtype=torch.float32)] *)
Definition tensor_of_boxes (bs : list BBox) : Tensor :=
  {| dt := float32; shape := [length bs; 4%nat]; data := bs ≫= bbox_row |}.

(** The annotations of an index entry that have a reduced label. *)
Definition labelled (ct2l : gmap string (option Z)) (anns : list ObjectAnn)
  : list ObjectAnn :=
  filter (fun a => is_Some (label_of ct2l a)) anns.

(** The reduced label the two tables of [utils.utils] give to a category. *)
Definition reduced_label (E : Env) (cat : Category) : option Z :=
  coarse ← NAME_MAPPING E !! name cat; CLASS_TO_ID E !! coarse.

(** The rasterizer can draw annotation [a] on a layer of shape [sh]: its
    category token resolves, and its mask, when present, decodes to an array
    of that shape. *)
Definition drawable (E : Env) (nu : NuImages) (sh : nat * nat)
  (a : ObjectAnn) : Prop :=
  is_Some (get_category nu (category_token a)) /\
  forall enc, mask a = Some enc ->
    exists m, mask_decode E enc = Ok m /\ nd_shape m = sh.

(** Annotation [a] is the last one of [s] at or after position [j] to cover
    pixel [p]: it sits at position [j], covers [p], and nothing later does. *)
Definition last_cover (E : Env) (s : list ObjectAnn) (j p : nat) : Prop :=
  (exists a, s !! j = Some a /\ covers E a p = true) /\
  forall j' c, (j < j')%nat -> s !! j' = Some c -> covers E c p = false.

(** What the hook does to an item. *)
Definition transformed (f : Transform) (item : Image * option Target)
  : result (Image * option Target) :=
  match item with
  | (image, Some target) => apply_transforms (Some f) image target
  | (image, None) => Ok (image, None)
  end.

(** The two fields that [same_index] does not mention. *)
Definition same_category_ids (a b : NuImagesDataset) : Prop :=
  _category_name_to_id a = _category_name_to_id b /\
  category_names a = category_names b.

(** ** A small concrete world

    A toy codec (one character per pixel), an image reader that knows two
    files, and a database with two categories, used to run the model on
    concrete inputs. *)

Definition demo_decode (enc : EncodedMask) : result ndarray :=
  Ok {| nd_shape := rle_size enc;
        nd_data := (fun c => if Ascii.eqb c (Ascii.ascii_of_nat 49) then 1 else 0)
                     <$> list_ascii_of_string (rle_counts enc) |}.

Definition demo_open (root file : string) : result Image :=
  if String.eqb file "missing.jpg" then Raise IOError
  else Ok {| size := (2%nat, 1%nat); rgb := [0; 0; 0; 0; 0; 0] |}.

Definition demo_env : Env :=
  {| mask_decode := demo_decode;
     open_rgb := demo_open;
     NAME_MAPPING := {[ "vehicle.car" := "car" ]};
     CLASS_TO_ID := {[ "car" := 1 ]} |}.

Definition demo_categories : list Category :=
  [ {| c_token := "c-car"; name := "vehicle.car" |};
    {| c_token := "c-cone"; name := "movable_object.trafficcone" |} ].

Definition demo_get_category (tok : string) : option Category :=
  List.find (fun c => String.eqb (c_token c) tok) demo_categories.

Definition demo_get_sample_data (tok : string) : option SampleData :=
  if String.eqb tok "sd-0" then
    Some {| filename := "cam0.jpg"; height := 1; width := 2 |}
  else if String.eqb tok "sd-1" then
    Some {| filename := "cam1.jpg"; height := 1; width := 2 |}
  else if String.eqb tok "sd-2" then
    Some {| filename := "cam2.jpg"; height := 1; width := 2 |}
  else None.

Definition demo_db (anns : list ObjectAnn) (samples : list Sample) : NuImages :=
  {| object_ann := anns; sample := samples; category := demo_categories;
     dataroot := "/data"; get_sample_data := demo_get_sample_data;
     get_category := demo_get_category |}.

(** An annotation of the 2x1 demo image: token, image, category, box, and
    the two mask pixels (or no mask). *)
Definition demo_ann (tok sd cat : string) (b : BBox) (m : option string)
  : ObjectAnn :=
  {| token := tok; sample_data_token := sd; category_token := cat; bbox := b;
     mask := (fun s => {| rle_size := (1%nat, 2%nat); rle_counts := s |}) <$> m |}.

Definition demo_image : Image :=
  {| size := (2%nat, 1%nat); rgb := [0; 0; 0; 0; 0; 0] |}.

Definition box_a : BBox := {| xmin := 0; ymin := 0; xmax := 1; ymax := 1 |}.
Definition box_b : BBox := {| xmin := 1; ymin := 0; xmax := 2; ymax := 1 |}.
Definition box_flat : BBox := {| xmin := 10; ymin := 10; xmax := 5; ymax := 20 |}.

(** Two annotations on the demo image with distinct tokens, given here in
    the order "b" before "a". *)
Definition ann_b : ObjectAnn := demo_ann "b" "sd-0" "c-car" box_b (Some "10").
Definition ann_a : ObjectAnn := demo_ann "a" "sd-0" "c-car" box_a (Some "01").

(** Two different annotations that carry the same token. *)
Definition dup_1 : ObjectAnn := demo_ann "t" "sd-0" "c-car" box_a (Some "10").
Definition dup_2 : ObjectAnn := demo_ann "t" "sd-0" "c-car" box_b (Some "01").

(** Three annotations whose masks all mark pixel 0. *)
Definition over_1 : ObjectAnn := demo_ann "a" "sd-0" "c-car" box_a (Some "10").
Definition over_2 : ObjectAnn := demo_ann "b" "sd-0" "c-car" box_a (Some "11").
Definition over_3 : ObjectAnn := demo_ann "c" "sd-0" "c-car" box_a (Some "10").

(** A mask-less annotation between two annotations with masks. *)
Definition bare : ObjectAnn := demo_ann "b" "sd-0" "c-car" box_a None.

Definition demo_nu : NuImages := demo_db [] [].

(** Three samples; the first image owns one annotation with a flat box, the
    second none, the third one annotation with a positive box. *)
Definition three_samples : list Sample :=
  [ {| key_camera_token := "sd-0" |}; {| key_camera_token := "sd-1" |};
    {| key_camera_token := "sd-2" |} ].

Definition db_scenario_a : NuImages :=
  demo_db [ demo_ann "o1" "sd-0" "c-car" box_flat (Some "10");
            demo_ann "o2" "sd-2" "c-car" box_a (Some "01") ]
          three_samples.

(** A test split: samples, no annotations. *)
Definition db_test_split : NuImages := demo_db [] three_samples.

(** One image with a valid annotation and one with a box of zero width. *)
Definition db_scenario_b : NuImages :=
  demo_db [ demo_ann "o1" "sd-0" "c-car" box_a (Some "10");
            demo_ann "o2" "sd-0" "c-car" box_flat (Some "01") ]
          [ {| key_camera_token := "sd-0" |} ].

(** One image whose two annotations belong to an unmapped category. *)
Definition db_scenario_c : NuImages :=
  demo_db [ demo_ann "o1" "sd-0" "c-cone" box_a (Some "10");
            demo_ann "o2" "sd-0" "c-cone" box_b (Some "01") ]
          [ {| key_camera_token := "sd-0" |} ].

(** Two images, only the first of which owns an annotation. *)
Definition db_unannotated : NuImages :=
  demo_db [ demo_ann "o1" "sd-0" "c-car" box_a (Some "10") ]
          [ {| key_camera_token := "sd-0" |}; {| key_camera_token := "sd-1" |} ].

(** One image whose annotations are listed with token "b" before "a". *)
Definition db_unsorted : NuImages :=
  demo_db [ann_b; ann_a] [ {| key_camera_token := "sd-0" |} ].

(** One image with a car (mapped) and a traffic cone (unmapped). *)
Definition db_mixed : NuImages :=
  demo_db [ demo_ann "o1" "sd-0" "c-car" box_a (Some "10");
            demo_ann "o2" "sd-0" "c-cone" box_b (Some "01") ]
          [ {| key_camera_token := "sd-0" |} ].

(** An image whose annotation carries a mask of the wrong shape. *)
Definition db_bad_mask : NuImages :=
  demo_db [ {| token := "o1"; sample_data_token := "sd-0";
               category_token := "c-car"; bbox := box_a;
               mask := Some {| rle_size := (2%nat, 2%nat);
                               rle_counts := "1001" |} |} ]
          [ {| key_camera_token := "sd-0" |} ].

(** A transform hook: it drops the pixels of the image and keeps the
    target. *)
Definition demo_transform : Transform :=
  fun image target => Ok ({| size := size image; rgb := [] |}, target).

(** A transform hook that raises on every item. *)
Definition failing_transform : Transform :=
  fun image target => Raise (OtherError "transform").


(** * Properties *)

(** ** The order on tokens and [sorted] *)

Section StrOrder.
Lemma str_lt_spec a b : str_lt a b = true <-> String_as_OT.lt a b.
Proof.
  unfold str_lt, String_as_OT.lt.
  destruct (String_as_OT.compare a b); split; congruence.
Qed.

Lemma str_lt_irrefl a : str_lt a a = false.
Proof.
  destruct (str_lt a a) eqn:H; [|done].
  apply str_lt_spec in H.
  destruct (StrictOrder_Irreflexive (R := String_as_OT.lt) a H).
Qed.

Lemma str_lt_trans a b c :
  str_lt a b = true -> str_lt b c = true -> str_lt a c = true.
Proof.
  rewrite !str_lt_spec. apply (StrictOrder_Transitive (R := String_as_OT.lt)).
Qed.

Lemma str_lt_connex a b : str_lt a b = false -> str_lt b a = false -> a = b.
Proof.
  intros Hab Hba.
  destruct (String_as_OT.compare_spec a b) as [Heq|Hlt|Hgt]; [done| |].
  - apply str_lt_spec in Hlt. congruence.
  - apply str_lt_spec in Hgt. congruence.
Qed.

Lemma str_lt_asym a b : str_lt a b = true -> str_lt b a = false.
Proof.
  intros Hab. destruct (str_lt b a) eqn:Hba; [|done].
  pose proof (str_lt_trans _ _ _ Hab Hba) as H.
  rewrite str_lt_irrefl in H. done.
Qed.

(** Not smaller is transitive (the order is total). *)
Lemma str_ge_trans a b c :
  str_lt b a = false -> str_lt c b = false -> str_lt c a = false.
Proof.
  intros Hab Hbc. destruct (str_lt c a) eqn:Hca; [|done].
  destruct (str_lt a b) eqn:Hab'.
  - rewrite (str_lt_trans _ _ _ Hca Hab') in Hbc. done.
  - rewrite (str_lt_connex _ _ Hab' Hab) in Hca. congruence.
Qed.
End StrOrder.

Section Sorted.
Context {A : Type} (key : A -> string).

#[local] Abbreviation key_le := (key_le key).

Lemma key_le_trans a b c : key_le a b -> key_le b c -> key_le a c.
Proof. unfold key_le. apply str_ge_trans. Qed.

Lemma insert_sorted_perm x l : insert_sorted key x l ≡ₚ x :: l.
Proof.
  induction l as [|y ys IH]; simpl; [done|].
  destruct (str_lt (key y) (key x)); [|done].
  rewrite IH. apply Permutation_swap.
Qed.

Lemma sorted_perm l : sorted key l ≡ₚ l.
Proof.
  induction l as [|x xs IH]; simpl; [done|].
  by rewrite insert_sorted_perm, IH.
Qed.

Lemma sorted_length l : length (sorted key l) = length l.
Proof. by rewrite (Permutation_length (sorted_perm l)). Qed.

Lemma insert_sorted_sorted x l :
  StronglySorted key_le l -> StronglySorted key_le (insert_sorted key x l).
Proof.
  induction 1 as [|y ys Hs IH Hy]; simpl.
  - repeat constructor.
  - destruct (str_lt (key y) (key x)) eqn:Hlt.
    + constructor; [done|].
      rewrite insert_sorted_perm. constructor; [|done].
      unfold key_le. by apply str_lt_asym.
    + constructor; [by constructor|].
      constructor; [done|].
      eapply Forall_impl; [exact Hy|].
      intros z Hz. by apply (key_le_trans x y z).
Qed.

Lemma sorted_sorted l : StronglySorted key_le (sorted key l).
Proof.
  induction l; simpl; [constructor|]. by apply insert_sorted_sorted.
Qed.

(** A list in order is left as it is. *)
Lemma sorted_id l : StronglySorted key_le l -> sorted key l = l.
Proof.
  induction 1 as [|x xs Hs IH Hx]; simpl; [done|].
  rewrite IH. destruct Hx as [|y ys Hy _]; simpl; [done|].
  unfold key_le in Hy. by rewrite Hy.
Qed.

(** Two ordered arrangements of the same elements coincide when the key
    identifies the element. *)
Lemma sorted_unique l1 l2 :
  StronglySorted key_le l1 -> StronglySorted key_le l2 -> l1 ≡ₚ l2 ->
  (forall a b, a ∈ l1 -> b ∈ l1 -> key a = key b -> a = b) ->
  l1 = l2.
Proof.
  intros H1. revert l2.
  induction H1 as [|x xs Hs IH Hx]; intros l2 H2 Hp Hid.
  - by apply Permutation_nil in Hp.
  - destruct H2 as [|y ys Hs2 Hy].
    + symmetry in Hp. by apply Permutation_nil in Hp.
    + assert (x = y) as ->.
      { assert (y ∈ x :: xs) as Hyin by (rewrite Hp; left).
        assert (x ∈ y :: ys) as Hxin by (rewrite <- Hp; left).
        apply Hid; [left|done|].
        apply elem_of_cons in Hyin as [->|Hyin]; [done|].
        apply elem_of_cons in Hxin as [->|Hxin]; [done|].
        rewrite Forall_forall in Hx, Hy.
        apply str_lt_connex; [by apply (Hy x) | by apply (Hx y)]. }
      f_equal. apply IH; [done|by apply Permutation_cons_inv in Hp|].
      intros a b Ha Hb. apply Hid; by right.
Qed.

(** [sorted] does not depend on the order of its input when the key
    identifies the element. *)
Lemma sorted_perm_invariant l1 l2 :
  l1 ≡ₚ l2 ->
  (forall a b, a ∈ l1 -> b ∈ l1 -> key a = key b -> a = b) ->
  sorted key l1 = sorted key l2.
Proof.
  intros Hp Hid. apply sorted_unique; try apply sorted_sorted.
  - by rewrite !sorted_perm.
  - intros a b. rewrite !sorted_perm. apply Hid.
Qed.
End Sorted.

(** [sorted] looks at the keys only. *)
Section SortedKeys.
Context {A B : Type}.

Lemma insert_sorted_fmap (f : A -> B) (key : B -> string) x l :
  insert_sorted key (f x) (f <$> l) = f <$> insert_sorted (key ∘ f) x l.
Proof.
  induction l as [|y ys IH]; [done|].
  rewrite fmap_cons. cbn [insert_sorted]. unfold compose at 1 2.
  destruct (str_lt (key (f y)) (key (f x))); [|done].
  by rewrite IH, fmap_cons.
Qed.

Lemma sorted_fmap (f : A -> B) (key : B -> string) l :
  sorted key (f <$> l) = f <$> sorted (key ∘ f) l.
Proof.
  induction l as [|x xs IH]; [done|].
  rewrite fmap_cons. cbn [sorted]. by rewrite IH, insert_sorted_fmap.
Qed.

Lemma insert_sorted_ext (key1 key2 : A -> string) x l :
  key1 x = key2 x -> Forall (fun y => key1 y = key2 y) l ->
  insert_sorted key1 x l = insert_sorted key2 x l.
Proof.
  intros Hx. induction 1 as [|y ys Hy _ IH]; simpl; [done|].
  by rewrite Hx, Hy, IH.
Qed.

Lemma sorted_ext (key1 key2 : A -> string) l :
  Forall (fun y => key1 y = key2 y) l -> sorted key1 l = sorted key2 l.
Proof.
  induction 1 as [|x xs Hx Hxs IH]; simpl; [done|].
  rewrite IH. apply insert_sorted_ext; [done|].
  by rewrite sorted_perm.
Qed.
End SortedKeys.

(** Replacing an element by one with the same key does not move anything:
    both lists are sorted into the same arrangement. *)
Lemma sorted_replace {A} (key : A -> string) (a a' : A) l1 l2 :
  key a' = key a ->
  exists pre post,
    sorted key (l1 ++ a :: l2) = pre ++ a :: post /\
    sorted key (l1 ++ a' :: l2) = pre ++ a' :: post.
Proof.
  intros Hkey.
  set (diag := fun x : A => (x, x)).
  set (zs := (diag <$> l1) ++ (a, a') :: (diag <$> l2)).
  assert (fst <$> zs = l1 ++ a :: l2) as Hfst.
  { unfold zs. rewrite fmap_app, fmap_cons, <- !list_fmap_compose; simpl.
    by rewrite !list_fmap_id. }
  assert (snd <$> zs = l1 ++ a' :: l2) as Hsnd.
  { unfold zs. rewrite fmap_app, fmap_cons, <- !list_fmap_compose; simpl.
    by rewrite !list_fmap_id. }
  assert (Forall (fun z => (key ∘ snd) z = (key ∘ fst) z) zs) as Hkeys.
  { unfold zs. apply Forall_app. split; [|constructor; [done|]];
      by apply Forall_fmap, Forall_true. }
  assert ((a, a') ∈ sorted (key ∘ fst) zs) as Hin.
  { rewrite sorted_perm. unfold zs. set_solver. }
  apply list_elem_of_split in Hin as (P & Q & HS).
  assert (Forall (fun z : A * A => z.1 = z.2) (P ++ Q)) as Hdiag.
  { assert (P ++ Q ≡ₚ (diag <$> l1) ++ (diag <$> l2)) as ->.
    { eapply Permutation_app_inv. rewrite <- HS. apply sorted_perm. }
    apply Forall_app. split; by apply Forall_fmap, Forall_true. }
  apply Forall_app in Hdiag as [HP HQ].
  exists (fst <$> P), (fst <$> Q). split.
  - by rewrite <- Hfst, sorted_fmap, HS, fmap_app, fmap_cons.
  - rewrite <- Hsnd, sorted_fmap, (sorted_ext _ (key ∘ fst) _ Hkeys), HS.
    rewrite fmap_app, fmap_cons; simpl. f_equal; [|f_equal];
      apply Forall_fmap_ext_1; (eapply Forall_impl; [eassumption|]); done.
Qed.

(** ** The drawing loop of [get_instance_mask] *)

Lemma for_each_app {A S} (body : S -> A -> result S) l1 l2 s :
  for_each body (l1 ++ l2) s = (s' ← for_each body l1 s; for_each body l2 s').
Proof.
  revert s. induction l1 as [|x xs IH]; intros s; simpl; [done|].
  destruct (body s x); simpl; [apply IH|done].
Qed.

Lemma enumerate_app {A} (k : nat) (l1 l2 : list A) :
  enumerate k (l1 ++ l2) = enumerate k l1 ++ enumerate (k + length l1) l2.
Proof.
  revert k. induction l1 as [|x xs IH]; intros k; simpl.
  - by rewrite Nat.add_0_r.
  - by rewrite IH, Nat.add_succ_r.
Qed.

Lemma pixel_zeros h w p : pixel (zeros h w) p = 0.
Proof.
  unfold pixel, zeros; simpl.
  destruct (replicate (h * w) 0 !! p) eqn:H; [|done].
  by apply lookup_replicate in H as [-> _].
Qed.

Lemma pixel_outside a p : (length (nd_data a) <= p)%nat -> pixel a p = 0.
Proof. intros H. unfold pixel. by rewrite lookup_ge_None_2. Qed.

Lemma assign_where_one_Ok layer m i layer' :
  assign_where_one layer m i = Ok layer' ->
  nd_shape layer' = nd_shape layer /\
  length (nd_data layer') = length (nd_data layer) /\
  forall p, (p < length (nd_data layer))%nat ->
    pixel layer' p = if decide (pixel m p = 1) then i else pixel layer p.
Proof.
  unfold assign_where_one. case_decide; [|done].
  intros [= <-]; simpl. split; [done|]. split; [by rewrite length_imap|].
  intros p Hp. unfold pixel at 1; simpl. rewrite list_lookup_imap.
  apply lookup_lt_is_Some_2 in Hp as [v Hv]. rewrite Hv; simpl.
  case_decide; [done|]. unfold pixel. by rewrite Hv.
Qed.

Section DrawingLoop.
Context (E : Env) (nu : NuImages).

Lemma draw_instance_unfold L i a :
  draw_instance E nu L (i, a) =
  (_ ← of_option KeyError (get_category nu (category_token a));
   match mask a with
   | None => Ok L
   | Some enc => m ← mask_decode E enc; assign_where_one L m (Z.of_nat i)
   end).
Proof. done. Qed.

Lemma draw_instance_Ok L i a L' :
  draw_instance E nu L (i, a) = Ok L' ->
  nd_shape L' = nd_shape L /\
  length (nd_data L') = length (nd_data L) /\
  forall p, (p < length (nd_data L))%nat ->
    pixel L' p = if covers E a p then Z.of_nat i else pixel L p.
Proof.
  unfold draw_instance, covers.
  destruct (get_category nu (category_token a)); simpl; [|done].
  destruct (mask a) as [enc|]; simpl.
  - destruct (mask_decode E enc) as [m|]; simpl; [|done].
    intros H. apply assign_where_one_Ok in H as (Hs & Hl & Hp).
    split; [done|]. split; [done|]. intros p Hlt. rewrite (Hp p Hlt).
    by destruct (decide (pixel m p = 1));
      [rewrite bool_decide_eq_true_2|rewrite bool_decide_eq_false_2].
  - by intros [= <-].
Qed.

(** An annotation without a mask leaves the layer as it is. *)
Lemma draw_instance_no_mask L i a :
  mask a = None -> is_Some (get_category nu (category_token a)) ->
  draw_instance E nu L (i, a) = Ok L.
Proof.
  intros Hm [c Hc]. unfold draw_instance. by rewrite Hc, Hm.
Qed.

#[local] Arguments draw_instance : simpl never.

(** After the loop, a pixel holds the index of the last annotation that
    covers it, or its former value when none does. *)
Lemma draw_all_pixel s : forall k L L',
  for_each (draw_instance E nu) (enumerate k s) L = Ok L' ->
  nd_shape L' = nd_shape L /\
  length (nd_data L') = length (nd_data L) /\
  forall p, (p < length (nd_data L))%nat ->
    (exists j b, s !! j = Some b /\ covers E b p = true /\
       (forall j' c, (j < j')%nat -> s !! j' = Some c -> covers E c p = false) /\
       pixel L' p = Z.of_nat (k + j))
    \/ ((forall j c, s !! j = Some c -> covers E c p = false) /\
        pixel L' p = pixel L p).
Proof.
  induction s as [|a s IH]; intros k L L'; simpl.
  - intros [= <-]. repeat split. intros p _. right. split; [|done].
    intros j c Hj. by rewrite lookup_nil in Hj.
  - destruct (draw_instance E nu L (k, a)) as [L1|] eqn:Hd; simpl; [|done].
    intros Hrest. apply draw_instance_Ok in Hd as (Hs1 & Hl1 & Hp1).
    apply IH in Hrest as (Hs2 & Hl2 & Hp2).
    split; [congruence|]. split; [congruence|].
    intros p Hp. destruct (Hp2 p) as [(j & b & Hj & Hb & Hlast & Hv)|[Hnone Hv]];
      [lia| |].
    + left. exists (S j), b. repeat split; [done..| |].
      * intros [|j'] c Hlt Hc; [lia|]. apply (Hlast j' c); [lia|done].
      * rewrite Hv. f_equal. lia.
    + rewrite Hv, (Hp1 p Hp). destruct (covers E a p) eqn:Hc.
      * left. exists 0%nat, a. repeat split; [done..| |].
        -- intros [|j'] c Hlt Hc'; [lia|]. by apply (Hnone j' c).
        -- f_equal. lia.
      * right. split; [|done]. intros [|j] c Hj; [|by apply (Hnone j c)].
        by injection Hj as <-.
Qed.

(** The loop succeeds when every category token resolves and every mask
    that is present decodes to an array of the layer's shape. *)
Lemma draw_all_total s : forall k L,
  Forall (fun a =>
    is_Some (get_category nu (category_token a)) /\
    forall enc, mask a = Some enc ->
      exists m, mask_decode E enc = Ok m /\ nd_shape m = nd_shape L) s ->
  exists L', for_each (draw_instance E nu) (enumerate k s) L = Ok L'.
Proof.
  induction s as [|a s IH]; intros k L Hall; simpl; [by eexists|].
  apply Forall_cons in Hall as [[[c Hc] Hm] Hall].
  assert (exists L1, draw_instance E nu L (k, a) = Ok L1) as [L1 HL1].
  { unfold draw_instance. rewrite Hc; simpl.
    destruct (mask a) as [enc|]; [|by eexists].
    destruct (Hm enc eq_refl) as (m & -> & Hsh); simpl.
    unfold assign_where_one. rewrite decide_True by done. by eexists. }
  rewrite HL1; simpl. apply IH.
  apply draw_instance_Ok in HL1 as (Hs & _).
  eapply Forall_impl; [exact Hall|]. intros b [Hb1 Hb2]. split; [done|].
  intros enc Henc. destruct (Hb2 enc Henc) as (m & ? & ?).
  exists m. split; [done|congruence].
Qed.
End DrawingLoop.

(** ** The instance mask rasterizer *)

Section RasterizerProperties.
Context (E : Env) (nu : NuImages).

Lemma get_instance_mask_unfold image anns :
  get_instance_mask E nu image anns =
  for_each (draw_instance E nu) (enumerate 1 (sorted token anns))
    (zeros (size image).2 (size image).1).
Proof. unfold get_instance_mask. by destruct (size image). Qed.

(** The rasterizer returns a layer when every category token resolves and
    every mask that is present decodes to an array of the image's shape. *)
Lemma get_instance_mask_total image anns :
  Forall (fun a =>
    is_Some (get_category nu (category_token a)) /\
    forall enc, mask a = Some enc ->
      exists m, mask_decode E enc = Ok m /\
                nd_shape m = ((size image).2, (size image).1)) anns ->
  exists layer, get_instance_mask E nu image anns = Ok layer.
Proof.
  intros Hall. rewrite get_instance_mask_unfold. apply draw_all_total.
  rewrite sorted_perm. exact Hall.
Qed.

(** The layer has the image's shape. *)
Lemma get_instance_mask_shape image anns layer :
  get_instance_mask E nu image anns = Ok layer ->
  nd_shape layer = ((size image).2, (size image).1) /\
  length (nd_data layer) = ((size image).2 * (size image).1)%nat.
Proof.
  rewrite get_instance_mask_unfold. intros H.
  apply draw_all_pixel in H as (Hs & Hl & _).
  split; [done|]. rewrite Hl. apply length_replicate.
Qed.

(** C4 (amended).  For two annotation lists that are permutations of each
    other and in which annotations carrying the same token are the same
    annotation (in particular, when tokens are pairwise distinct), the
    rasterizer produces the same result: the same layer, or the same
    exception. *)
Theorem get_instance_mask_permutation image l1 l2 :
  l1 ≡ₚ l2 ->
  (forall a b, a ∈ l1 -> b ∈ l1 -> token a = token b -> a = b) ->
  get_instance_mask E nu image l1 = get_instance_mask E nu image l2.
Proof.
  intros Hp Hid. rewrite !get_instance_mask_unfold.
  by rewrite (sorted_perm_invariant token l1 l2 Hp Hid).
Qed.

(** C5 (amended).  When the decoded masks of two annotations overlap at a
    pixel of the image, the layer holds there the index of the last
    annotation in sorted order that covers the pixel: an index not below the
    later annotation's, equal to it when no annotation after it covers the
    pixel, and never the earlier annotation's index. *)
Theorem get_instance_mask_last_written_wins image anns layer i j a b p :
  get_instance_mask E nu image anns = Ok layer ->
  sorted token anns !! i = Some a ->
  sorted token anns !! j = Some b ->
  (i < j)%nat ->
  (p < (size image).2 * (size image).1)%nat ->
  covers E a p = true ->
  covers E b p = true ->
  (exists k c,
      (j <= k)%nat /\ sorted token anns !! k = Some c /\ covers E c p = true /\
      (forall k' c', (k < k')%nat -> sorted token anns !! k' = Some c' ->
                     covers E c' p = false) /\
      pixel layer p = Z.of_nat (k + 1)) /\
  ((forall k c, (j < k)%nat -> sorted token anns !! k = Some c ->
                covers E c p = false) ->
   pixel layer p = Z.of_nat (j + 1)) /\
  pixel layer p <> Z.of_nat (i + 1).
Proof.
  intros Hl Ha Hb Hij Hp Hca Hcb.
  rewrite get_instance_mask_unfold in Hl.
  apply draw_all_pixel in Hl as (_ & _ & Hpix).
  destruct (Hpix p) as [(k & c & Hk & Hc & Hlast & Hv)|[Hnone _]].
  - unfold zeros; simpl. by rewrite length_replicate.
  - assert (j <= k)%nat as Hjk.
    { destruct (decide (j <= k)%nat) as [|Hn]; [done|].
      rewrite (Hlast j b) in Hcb; [done|lia|done]. }
    split; [|split].
    + exists k, c. repeat split; [done..|]. rewrite Hv. f_equal. lia.
    + intros Hnolater. destruct (decide (k = j)) as [->|Hne].
      * rewrite Hv. f_equal. lia.
      * rewrite (Hnolater k c) in Hc; [done|lia|done].
    + rewrite Hv. lia.
  - by rewrite (Hnone j b Hb) in Hcb.
Qed.
End RasterizerProperties.

Lemma get_instance_mask_permutation_witness :
  get_instance_mask demo_env demo_nu demo_image [ann_b; ann_a] =
  get_instance_mask demo_env demo_nu demo_image [ann_a; ann_b].
Proof.
  apply get_instance_mask_permutation.
  - apply Permutation_swap.
  - intros a b Ha Hb.
    apply elem_of_cons in Ha as [->|Ha]; [|apply list_elem_of_singleton in Ha as ->];
    (apply elem_of_cons in Hb as [->|Hb]; [|apply list_elem_of_singleton in Hb as ->]);
    vm_compute; congruence.
Defined.

(** C4 as stated fails: with two different annotations under one token the
    stable sort keeps the input order, and the two orders give different
    layers. *)
Lemma get_instance_mask_duplicate_tokens :
  [dup_1; dup_2] ≡ₚ [dup_2; dup_1] /\
  get_instance_mask demo_env demo_nu demo_image [dup_1; dup_2]
    = Ok {| nd_shape := (1%nat, 2%nat); nd_data := [1; 2] |} /\
  get_instance_mask demo_env demo_nu demo_image [dup_2; dup_1]
    = Ok {| nd_shape := (1%nat, 2%nat); nd_data := [2; 1] |} /\
  get_instance_mask demo_env demo_nu demo_image [dup_1; dup_2]
    <> get_instance_mask demo_env demo_nu demo_image [dup_2; dup_1].
Proof.
  split; [apply Permutation_swap|].
  split; [by vm_compute|]. split; [by vm_compute|].
  vm_compute. congruence.
Qed.

Lemma get_instance_mask_last_written_wins_witness :
  (exists k c,
      (1 <= k)%nat /\ sorted token [over_2; over_1] !! k = Some c /\
      covers demo_env c 0 = true /\
      (forall k' c', (k < k')%nat -> sorted token [over_2; over_1] !! k' = Some c' ->
                     covers demo_env c' 0 = false) /\
      pixel {| nd_shape := (1%nat, 2%nat); nd_data := [2; 2] |} 0
        = Z.of_nat (k + 1)) /\
  ((forall k c, (1 < k)%nat -> sorted token [over_2; over_1] !! k = Some c ->
                covers demo_env c 0 = false) ->
   pixel {| nd_shape := (1%nat, 2%nat); nd_data := [2; 2] |} 0 = Z.of_nat (1 + 1)) /\
  pixel {| nd_shape := (1%nat, 2%nat); nd_data := [2; 2] |} 0 <> Z.of_nat (0 + 1).
Proof.
  apply (get_instance_mask_last_written_wins demo_env demo_nu demo_image
           [over_2; over_1] _ 0%nat 1%nat over_1 over_2 0%nat);
    first [reflexivity | simpl; lia | by vm_compute].
Defined.

(** C5 as stated fails: of three annotations that all cover pixel 0, the
    first two (indices 1 and 2) overlap there, yet the layer holds 3. *)
Lemma get_instance_mask_third_overwrites :
  sorted token [over_3; over_1; over_2] = [over_1; over_2; over_3] /\
  covers demo_env over_1 0 = true /\
  covers demo_env over_2 0 = true /\
  exists layer,
    get_instance_mask demo_env demo_nu demo_image [over_3; over_1; over_2]
      = Ok layer /\
    pixel layer 0 = 3 /\
    pixel layer 0 <> 2.
Proof.
  split; [by vm_compute|]. split; [by vm_compute|]. split; [by vm_compute|].
  eexists. split; [by vm_compute|]. by vm_compute.
Qed.

Section MaskLess.
Context (E : Env) (nu : NuImages).

#[local] Arguments draw_instance : simpl never.

(** C6.  An annotation without an encoded mask writes no pixel, and its
    index is consumed all the same: with [pre] the annotations sorted before
    it and [post] those sorted after it, the layer is what drawing [pre]
    from index 1 and [post] from index [length pre + 2] gives, no pixel
    holds the index [length pre + 1], and when the same annotation is given
    a mask the annotations of [post] are still drawn from index
    [length pre + 2]. *)
Theorem get_instance_mask_mask_less image l1 a l2 enc :
  mask a = None ->
  exists pre post,
    sorted token (l1 ++ a :: l2) = pre ++ a :: post /\
    sorted token (l1 ++ with_mask a (Some enc) :: l2)
      = pre ++ with_mask a (Some enc) :: post /\
    get_instance_mask E nu image (l1 ++ a :: l2) =
      (L ← for_each (draw_instance E nu) (enumerate 1 pre)
             (zeros (size image).2 (size image).1);
       _ ← of_option KeyError (get_category nu (category_token a));
       for_each (draw_instance E nu) (enumerate (length pre + 2) post) L) /\
    get_instance_mask E nu image (l1 ++ with_mask a (Some enc) :: l2) =
      (L ← for_each (draw_instance E nu) (enumerate 1 pre)
             (zeros (size image).2 (size image).1);
       _ ← of_option KeyError (get_category nu (category_token a));
       m ← mask_decode E enc;
       L1 ← assign_where_one L m (Z.of_nat (length pre + 1));
       for_each (draw_instance E nu) (enumerate (length pre + 2) post) L1) /\
    (forall layer p,
       get_instance_mask E nu image (l1 ++ a :: l2) = Ok layer ->
       pixel layer p <> Z.of_nat (length pre + 1)).
Proof.
  intros Hm.
  destruct (sorted_replace token a (with_mask a (Some enc)) l1 l2 eq_refl)
    as (pre & post & Hs & Hs').
  exists pre, post. split; [done|]. split; [done|].
  assert (forall b, enumerate 1 (pre ++ b :: post) =
            enumerate 1 pre ++ (length pre + 1, b)%nat
              :: enumerate (length pre + 2) post) as Henum.
  { intros b. rewrite enumerate_app; simpl. do 3 f_equal; lia. }
  split; [|split].
  - rewrite get_instance_mask_unfold, Hs, Henum, for_each_app.
    destruct (for_each _ (enumerate 1 pre) _) as [L|]; simpl; [|done].
    rewrite draw_instance_unfold.
    destruct (get_category nu (category_token a)); simpl; [|done].
    by rewrite Hm.
  - rewrite get_instance_mask_unfold, Hs', Henum, for_each_app.
    destruct (for_each _ (enumerate 1 pre) _) as [L|]; simpl; [|done].
    rewrite draw_instance_unfold; simpl.
    destruct (get_category nu (category_token a)); simpl; [|done].
    by destruct (mask_decode E enc).
  - intros layer p Hl.
    destruct (decide (p < length (nd_data layer))%nat) as [Hp|Hp].
    + rewrite get_instance_mask_unfold in Hl.
      pose proof Hl as Hl'.
      apply draw_all_pixel in Hl' as (_ & Hlen & Hpix).
      destruct (Hpix p) as [(j & b & Hj & Hb & _ & Hv)|[_ Hv]]; [lia| |].
      * rewrite Hv. intros Heq. assert (j = length pre) as -> by lia.
        rewrite Hs in Hj. rewrite list_lookup_middle in Hj by done.
        injection Hj as <-. unfold covers in Hb. by rewrite Hm in Hb.
      * rewrite Hv, pixel_zeros. lia.
    + rewrite pixel_outside by lia. lia.
Qed.
End MaskLess.

Lemma get_instance_mask_mask_less_witness :
  exists pre post,
    sorted token ([over_3] ++ bare :: [over_1]) = pre ++ bare :: post /\
    sorted token ([over_3] ++ with_mask bare (Some {| rle_size := (1%nat, 2%nat); rle_counts := "01" |}) :: [over_1])
      = pre ++ with_mask bare (Some {| rle_size := (1%nat, 2%nat); rle_counts := "01" |}) :: post /\
    get_instance_mask demo_env demo_nu demo_image ([over_3] ++ bare :: [over_1]) =
      (L ← for_each (draw_instance demo_env demo_nu) (enumerate 1 pre)
             (zeros (size demo_image).2 (size demo_image).1);
       _ ← of_option KeyError (get_category demo_nu (category_token bare));
       for_each (draw_instance demo_env demo_nu) (enumerate (length pre + 2) post) L) /\
    get_instance_mask demo_env demo_nu demo_image
      ([over_3] ++ with_mask bare (Some {| rle_size := (1%nat, 2%nat); rle_counts := "01" |}) :: [over_1]) =
      (L ← for_each (draw_instance demo_env demo_nu) (enumerate 1 pre)
             (zeros (size demo_image).2 (size demo_image).1);
       _ ← of_option KeyError (get_category demo_nu (category_token bare));
       m ← mask_decode demo_env {| rle_size := (1%nat, 2%nat); rle_counts := "01" |};
       L1 ← assign_where_one L m (Z.of_nat (length pre + 1));
       for_each (draw_instance demo_env demo_nu) (enumerate (length pre + 2) post) L1) /\
    (forall layer p,
       get_instance_mask demo_env demo_nu demo_image ([over_3] ++ bare :: [over_1]) = Ok layer ->
       pixel layer p <> Z.of_nat (length pre + 1)).
Proof.
  apply (get_instance_mask_mask_less demo_env demo_nu demo_image
           [over_3] bare [over_1]).
  reflexivity.
Defined.

(** The same on a concrete input: the mask-less "b" is second in sorted
    order; "c" is drawn with index 3 whether or not "b" has a mask. *)
Example mask_less_example :
  get_instance_mask demo_env demo_nu demo_image [over_3; bare; over_1]
    = Ok {| nd_shape := (1%nat, 2%nat); nd_data := [3; 0] |} /\
  get_instance_mask demo_env demo_nu demo_image
    [over_3; with_mask bare (Some {| rle_size := (1%nat, 2%nat); rle_counts := "01" |}); over_1]
    = Ok {| nd_shape := (1%nat, 2%nat); nd_data := [3; 2] |}.
Proof. split; by vm_compute. Qed.

(** ** Construction: the annotation index *)

Lemma sd_tokens_with_objects_spec anns x :
  x ∈ sd_tokens_with_objects anns <->
  Exists (fun o => sample_data_token o = x) anns.
Proof.
  unfold sd_tokens_with_objects.
  assert (forall s : gset string,
    x ∈ foldl (fun s o => {[ sample_data_token o ]} ∪ s) s anns <->
    x ∈ s \/ Exists (fun o => sample_data_token o = x) anns) as H.
  { induction anns as [|o anns IH]; intros s; simpl.
    - rewrite Exists_nil. tauto.
    - rewrite IH, Exists_cons, elem_of_union, elem_of_singleton.
      intuition congruence. }
  rewrite H. assert (x ∉ (∅ : gset string)) by apply not_elem_of_empty. tauto.
Qed.

Lemma add_object_ann_lookup d o sd :
  add_object_ann d o !! sd =
  if decide (sample_data_token o = sd) then
    Some (default [] (d !! sd) ++ (if decide (nondegenerate o) then [o] else []))
  else d !! sd.
Proof.
  unfold add_object_ann.
  set (d' := match d !! sample_data_token o with
             | None => <[sample_data_token o := []]> d
             | Some _ => d
             end).
  assert (d' !! sd = if decide (sample_data_token o = sd)
                     then Some (default [] (d !! sd)) else d !! sd) as Hd'.
  { unfold d'. case_decide as Heq.
    - subst sd. destruct (d !! sample_data_token o) eqn:Hl; simpl.
      + done.
      + by rewrite lookup_insert_eq.
    - destruct (d !! sample_data_token o); [done|]. by rewrite lookup_insert_ne. }
  destruct (decide (nondegenerate o)) as [Hnd|Hnd].
  - destruct Hnd as [Hw Hh].
    rewrite (proj2 (Z.ltb_lt _ _) Hw), (proj2 (Z.ltb_lt _ _) Hh); simpl.
    case_decide as Heq.
    + subst sd. by rewrite lookup_alter_eq, Hd'.
    + by rewrite lookup_alter_ne.
  - assert ((0 <? xmax (bbox o) - xmin (bbox o))
            && (0 <? ymax (bbox o) - ymin (bbox o)) = false) as ->.
    { apply andb_false_iff. unfold nondegenerate in Hnd.
      rewrite !Z.ltb_ge. lia. }
    rewrite Hd'. case_decide; [|done]. by rewrite app_nil_r.
Qed.

Lemma foldl_add_object_ann_lookup anns : forall d sd,
  foldl add_object_ann d anns !! sd =
  match d !! sd, filter (fun o => sample_data_token o = sd) anns with
  | None, [] => None
  | None, own => Some (filter nondegenerate own)
  | Some l, own => Some (l ++ filter nondegenerate own)
  end.
Proof.
  induction anns as [|o anns IH]; intros d sd; simpl.
  - destruct (d !! sd); [by rewrite app_nil_r|done].
  - rewrite IH, add_object_ann_lookup, filter_cons.
    destruct (decide (sample_data_token o = sd)) as [Heq|Hne]; [|done].
    rewrite filter_cons.
    destruct (d !! sd) as [l|]; simpl;
      destruct (decide (nondegenerate o)); simpl;
      rewrite <- ?app_assoc; simpl; try done;
      by destruct (filter _ anns).
Qed.

(** The index holds, for every image that owns a raw annotation, its raw
    annotations with a positive box, in table order; other images have no
    entry. *)
Lemma build_object_anns_dict_lookup nu sd :
  build_object_anns_dict (object_ann nu) !! sd =
  match raw_annotations nu sd with
  | [] => None
  | _ :: _ => Some (valid_annotations nu sd)
  end.
Proof.
  unfold build_object_anns_dict, valid_annotations, raw_annotations.
  rewrite foldl_add_object_ann_lookup, lookup_empty.
  by destruct (filter _ (object_ann nu)).
Qed.

Lemma valid_annotations_nondegenerate nu sd :
  Forall nondegenerate (valid_annotations nu sd).
Proof.
  apply Forall_forall. intros o Ho.
  by apply list_elem_of_filter in Ho as [? _].
Qed.

Section InitFacts.
Context (E : Env).

Lemma init_Ok nu tr re ds :
  __init__ E nu tr re = Ok ds ->
  has_ann ds = negb (bool_decide (length (object_ann nu) = 0%nat)) /\
  nuimages ds = nu /\ root_path ds = dataroot nu /\ transforms ds = tr /\
  samples_with_objects ds =
    (if re && has_ann ds
     then select_samples (sd_tokens_with_objects (object_ann nu)) (sample nu)
     else seq 0 (length (sample nu))) /\
  object_anns_dict ds = build_object_anns_dict (object_ann nu) /\
  for_each (add_cat_label E) (category nu) ∅ = Ok (_cat_token_to_label ds) /\
  _kept_cache ds = ∅ /\ _inst_mask_cache ds = ∅.
Proof.
  unfold __init__. destruct (build_category_ids (category nu)) as [ids names].
  destruct (for_each (add_cat_label E) (category nu) ∅) as [ct2l|]; simpl;
    [|done].
  by intros [= <-].
Qed.

(** Construction fails only on a coarse class name without an id. *)
Lemma init_total nu tr re :
  (forall fine coarse, NAME_MAPPING E !! fine = Some coarse ->
                       is_Some (CLASS_TO_ID E !! coarse)) ->
  exists ds, __init__ E nu tr re = Ok ds.
Proof.
  intros Hids. unfold __init__.
  destruct (build_category_ids (category nu)) as [ids names].
  assert (forall cats m, exists m',
            for_each (add_cat_label E) cats m = Ok m') as Hloop.
  { induction cats as [|c cats IH]; intros m; [by eexists|].
    assert (exists m1, add_cat_label E m c = Ok m1) as [m1 Hm1].
    { unfold add_cat_label.
      destruct (NAME_MAPPING E !! name c) as [coarse|] eqn:Hn; [|by eexists].
      destruct (Hids _ _ Hn) as [id ->]; simpl. by eexists. }
    cbn [for_each]. rewrite Hm1. apply IH. }
  destruct (Hloop (category nu) ∅) as [ct2l ->]; simpl. by eexists.
Qed.

Lemma init_coherent nu tr re ds :
  __init__ E nu tr re = Ok ds -> coherent E ds.
Proof.
  intros H. apply init_Ok in H as (_ & _ & _ & _ & _ & _ & _ & Hk & Hi).
  split; intros sd v; [rewrite Hk | rewrite Hi]; by rewrite lookup_empty.
Qed.
End InitFacts.

(** ** Item access: frame and cache coherence *)

Section SameIndex.
Lemma same_index_refl a : same_index a a.
Proof. by repeat split. Qed.

Lemma same_index_trans a b c :
  same_index a b -> same_index b c -> same_index a c.
Proof.
  intros (?&?&?&?&?&?&?) (?&?&?&?&?&?&?). repeat split; congruence.
Qed.

Lemma same_index_set_kept_cache a k v :
  same_index a (set_kept_cache a k v).
Proof. by repeat split. Qed.

Lemma same_index_set_inst_mask_cache a k v :
  same_index a (set_inst_mask_cache a k v).
Proof. by repeat split. Qed.
End SameIndex.

Section GetItemFacts.
Context (E : Env).

Lemma image_of_same a b sd :
  same_index a b -> image_of E a sd = image_of E b sd.
Proof. intros (_ & Hn & Hr & _). unfold image_of. by rewrite Hn, Hr. Qed.

Lemma load_image_same a b idx :
  same_index a b -> load_image E a idx = load_image E b idx.
Proof.
  intros (_ & Hn & Hr & _ & Hs & _). unfold load_image.
  by rewrite Hn, Hr, Hs.
Qed.

Lemma target_of_same a b anns image idx :
  same_index a b -> target_of E a anns image idx = target_of E b anns image idx.
Proof.
  intros (_ & Hn & _ & _ & _ & _ & Hc). unfold target_of. by rewrite Hn, Hc.
Qed.

Lemma item_of_same a b idx :
  same_index a b -> item_of E a idx = item_of E b idx.
Proof.
  intros Hs. unfold item_of. rewrite (load_image_same a b idx Hs).
  destruct Hs as (Hh & Hn & Hr & Ht & Hsw & Hd & Hc).
  destruct (load_image E b idx) as [[sd image]|]; simpl; [|done].
  rewrite Hh, Hd, Ht. destruct (negb (has_ann b)); [done|].
  destruct (object_anns_dict b !! sd) as [anns|]; simpl; [|done].
  by rewrite (target_of_same a b) by by repeat split.
Qed.

Lemma load_image_image_of self idx sd image :
  load_image E self idx = Ok (sd, image) -> image_of E self sd = Ok image.
Proof.
  unfold load_image, image_of.
  destruct (py_index _ idx) as [i|]; simpl; [|done].
  destruct (sample (nuimages self) !! i) as [s|]; simpl; [|done].
  destruct (get_sample_data _ (key_camera_token s)) as [sdata|] eqn:Hsd;
    simpl; [|done].
  destruct (open_rgb E _ (filename sdata)) as [img|] eqn:Ho; simpl; [|done].
  intros [= <- <-]. by rewrite Hsd; simpl.
Qed.

Lemma coherent_same_caches a b :
  same_index a b -> _kept_cache a = _kept_cache b ->
  _inst_mask_cache a = _inst_mask_cache b -> coherent E a -> coherent E b.
Proof.
  intros Hs Hk Hi [H1 H2]. pose proof (image_of_same a b) as Him.
  destruct Hs as (Hh & Hn & Hr & Ht & Hsw & Hd & Hc).
  split; intros sd v.
  - rewrite <- Hk, <- Hd, <- Hc. apply H1.
  - rewrite <- Hi, <- Hd, <- Hn. intros Hv.
    destruct (H2 sd v Hv) as (anns & image & ? & ? & ?).
    exists anns, image. rewrite <- Him by by repeat split. done.
Qed.

Lemma coherent_set_kept_cache self sd anns :
  coherent E self -> object_anns_dict self !! sd = Some anns ->
  coherent E (set_kept_cache self sd
                (compute_kept (_cat_token_to_label self) anns)).
Proof.
  intros [H1 H2] Hd. split; simpl.
  - intros sd' kept. destruct (decide (sd = sd')) as [<-|Hne].
    + rewrite lookup_insert_eq. intros [= <-]. by exists anns.
    + rewrite lookup_insert_ne by done. apply H1.
  - apply H2.
Qed.

Lemma coherent_set_inst_mask_cache self sd anns image layer :
  coherent E self -> object_anns_dict self !! sd = Some anns ->
  image_of E self sd = Ok image ->
  get_instance_mask E (nuimages self) image anns = Ok layer ->
  coherent E (set_inst_mask_cache self sd layer).
Proof.
  intros [H1 H2] Hd Hi Hl. split; simpl.
  - apply H1.
  - intros sd' layer'. destruct (decide (sd = sd')) as [<-|Hne].
    + rewrite lookup_insert_eq. intros [= <-]. by exists anns, image.
    + rewrite lookup_insert_ne by done. apply H2.
Qed.

Lemma kept_for_spec self sd anns :
  coherent E self -> object_anns_dict self !! sd = Some anns ->
  (kept_for self sd anns).1 = compute_kept (_cat_token_to_label self) anns /\
  same_index self (kept_for self sd anns).2 /\
  coherent E (kept_for self sd anns).2.
Proof.
  intros Hc Hd. unfold kept_for.
  destruct (_kept_cache self !! sd) as [kept|] eqn:Hk; simpl.
  - destruct (kept_cache_ok E self Hc sd kept Hk) as (anns' & Hd' & ->).
    split; [congruence|]. split; [apply same_index_refl|done].
  - split; [done|]. split; [apply same_index_set_kept_cache|].
    by apply coherent_set_kept_cache.
Qed.

Lemma instance_mask_for_spec self sd image anns :
  coherent E self -> object_anns_dict self !! sd = Some anns ->
  image_of E self sd = Ok image ->
  (instance_mask_for E self sd image anns).1
    = get_instance_mask E (nuimages self) image anns /\
  same_index self (instance_mask_for E self sd image anns).2 /\
  coherent E (instance_mask_for E self sd image anns).2.
Proof.
  intros Hc Hd Hi. unfold instance_mask_for.
  destruct (_inst_mask_cache self !! sd) as [layer|] eqn:Hl; simpl.
  - destruct (inst_mask_cache_ok E self Hc sd layer Hl)
      as (anns' & image' & Hd' & Hi' & Hg).
    split; [congruence|]. split; [apply same_index_refl|done].
  - destruct (get_instance_mask E (nuimages self) image anns) as [layer|]
      eqn:Hg; simpl.
    + split; [done|]. split; [apply same_index_set_inst_mask_cache|].
      by eapply coherent_set_inst_mask_cache.
    + split; [done|]. split; [apply same_index_refl|done].
Qed.

(** A call leaves everything but the caches as it was, keeps the caches
    coherent, and returns what the cache-free computation returns. *)
Lemma getitem_spec self idx :
  coherent E self ->
  (__getitem__ E self idx).1 = item_of E self idx /\
  same_index self (__getitem__ E self idx).2 /\
  coherent E (__getitem__ E self idx).2.
Proof.
  intros Hc. unfold __getitem__, item_of.
  destruct (load_image E self idx) as [[sd image]|] eqn:Hload; simpl;
    [|by split; [|split; [apply same_index_refl|]]].
  destruct (has_ann self); simpl;
    [|by split; [|split; [apply same_index_refl|]]].
  destruct (object_anns_dict self !! sd) as [anns|] eqn:Hd; simpl;
    [|by split; [|split; [apply same_index_refl|]]].
  destruct (kept_for_spec self sd anns Hc Hd) as (Hk & Hs1 & Hc1).
  destruct (kept_for self sd anns) as [[kept_indices kept_labels] self1].
  simpl in Hk, Hs1, Hc1. unfold target_of. rewrite <- Hk; simpl.
  assert (transforms self1 = transforms self) as Htr
    by (by destruct Hs1 as (_&_&_&->&_)).
  match goal with
  | |- context [@mapM ?M ?H1 ?H2 ?A ?B ?f kept_indices] =>
      generalize (@mapM M H1 H2 A B f kept_indices)
  end.
  intros boxes_r.
  destruct kept_indices as [|i0 kept_rest]; [by rewrite Htr|].
  destruct boxes_r as [kept_boxes|]; simpl; [|done].
  assert (object_anns_dict self1 !! sd = Some anns) as Hd1
    by (by destruct Hs1 as (_&_&_&_&_&<-&_)).
  assert (image_of E self1 sd = Ok image) as Hi1.
  { rewrite <- (image_of_same self self1 sd Hs1).
    by eapply load_image_image_of. }
  destruct (instance_mask_for_spec self1 sd image anns Hc1 Hd1 Hi1)
    as (Hm & Hs2 & Hc2).
  assert (nuimages self1 = nuimages self) as Hnu
    by (by destruct Hs1 as (_&->&_)).
  rewrite Hnu in Hm.
  destruct (instance_mask_for E self1 sd image anns) as [[layer|e] self2];
    simpl in Hm, Hs2, Hc2; rewrite <- Hm; simpl.
  - assert (transforms self2 = transforms self) as ->
      by (destruct Hs2 as (_&_&_&<-&_); done).
    split; [done|]. split; [by eapply same_index_trans|done].
  - split; [done|]. split; [by eapply same_index_trans|done].
Qed.

Lemma after_calls_spec idxs : forall self,
  coherent E self ->
  same_index self (after_calls E self idxs) /\
  coherent E (after_calls E self idxs).
Proof.
  induction idxs as [|idx idxs IH]; intros self Hc; simpl.
  - split; [apply same_index_refl|done].
  - destruct (getitem_spec self idx Hc) as (_ & Hs & Hc').
    destruct (IH _ Hc') as [Hs' Hc'']. split; [|done].
    by eapply same_index_trans.
Qed.

(** In every state reached from a fresh dataset object, a call returns
    what the cache-free computation returns on the fresh object. *)
Lemma getitem_after_calls nu tr re ds idxs idx :
  __init__ E nu tr re = Ok ds ->
  (__getitem__ E (after_calls E ds idxs) idx).1 = item_of E ds idx /\
  same_index ds (after_calls E ds idxs).
Proof.
  intros Hinit. apply init_coherent in Hinit.
  destruct (after_calls_spec idxs ds Hinit) as [Hs Hc].
  destruct (getitem_spec _ idx Hc) as (-> & _ & _).
  split; [|done]. symmetry. by apply item_of_same.
Qed.
End GetItemFacts.

(** ** Kept annotations and the shape of targets *)

Lemma enumerate_lookup {A} (l : list A) : forall k j,
  enumerate k l !! j = (fun x => ((k + j)%nat, x)) <$> l !! j.
Proof.
  induction l as [|x xs IH]; intros k [|j]; simpl; try done.
  - by rewrite Nat.add_0_r.
  - rewrite IH. by rewrite Nat.add_succ_r.
Qed.

Lemma foldl_keep_step ct2l l : forall k acc,
  foldl (keep_step ct2l) acc (enumerate k l) =
  (acc.1 ++ (fst <$> kept_of ct2l k l), acc.2 ++ (snd <$> kept_of ct2l k l)).
Proof.
  induction l as [|a l IH]; intros k [ks ls]; simpl.
  - by rewrite !app_nil_r.
  - rewrite IH. unfold label_of.
    destruct (mjoin (ct2l !! category_token a)); simpl; [|done].
    by rewrite <- !app_assoc.
Qed.

Lemma compute_kept_eq ct2l anns :
  compute_kept ct2l anns =
  (fst <$> kept_of ct2l 0 anns, snd <$> kept_of ct2l 0 anns).
Proof. unfold compute_kept. by rewrite foldl_keep_step. Qed.

Lemma compute_kept_lengths ct2l anns :
  length (compute_kept ct2l anns).2 = length (compute_kept ct2l anns).1.
Proof. rewrite compute_kept_eq; simpl. by rewrite !length_fmap. Qed.

(** Every kept position is a position of a labelled annotation. *)
Lemma kept_of_positions ct2l l : forall k,
  Forall (fun x => exists a, (k <= x.1)%nat /\ l !! (x.1 - k)%nat = Some a /\
                             label_of ct2l a = Some x.2) (kept_of ct2l k l).
Proof.
  induction l as [|a l IH]; intros k; simpl; [constructor|].
  assert (Forall (fun x => exists a0, (k <= x.1)%nat /\
                     (a :: l) !! (x.1 - k)%nat = Some a0 /\
                     label_of ct2l a0 = Some x.2) (kept_of ct2l (S k) l)) as Hrest.
  { eapply Forall_impl; [apply (IH (S k))|]. intros [i lbl]; simpl.
    intros (a0 & Hle & Hl & Hlbl). exists a0. split; [lia|]. split; [|done].
    by replace (i - k)%nat with (S (i - S k)) by lia. }
  destruct (label_of ct2l a) as [lbl|] eqn:Hlbl; [|done].
  constructor; [|done]. exists a; simpl. rewrite Nat.sub_diag. by split.
Qed.

Lemma compute_kept_positions ct2l anns :
  Forall (fun i => exists a, anns !! i = Some a /\ is_Some (label_of ct2l a))
         (compute_kept ct2l anns).1.
Proof.
  rewrite compute_kept_eq; simpl. apply Forall_fmap.
  eapply Forall_impl; [apply kept_of_positions|]. intros [i lbl]; simpl.
  rewrite Nat.sub_0_r. intros (a & _ & Ha & Hl). exists a. by rewrite Hl.
Qed.

Lemma kept_of_unmapped ct2l l : forall k,
  Forall (fun a => label_of ct2l a = None) l -> kept_of ct2l k l = [].
Proof.
  induction l as [|a l IH]; intros k Hall; simpl; [done|].
  apply Forall_cons in Hall as [-> Hall]. by apply IH.
Qed.

Lemma compute_kept_unmapped ct2l anns :
  Forall (fun a => label_of ct2l a = None) anns ->
  compute_kept ct2l anns = ([], []).
Proof. intros H. by rewrite compute_kept_eq, kept_of_unmapped. Qed.

(** Gathering the kept boxes cannot fail on kept positions. *)
Lemma mapM_boxes (anns : list ObjectAnn) (ks : list nat) :
  Forall (fun i => is_Some (anns !! i)) ks ->
  exists bs,
    mapM (fun i : nat => of_option IndexError (bbox <$> anns !! i)) ks = Ok bs /\
    Forall2 (fun i b => bbox <$> anns !! i = Some b) ks bs.
Proof.
  induction 1 as [|i ks [a Ha] _ (bs & IH & Hbs)].
  - by exists [].
  - exists (bbox a :: bs). cbn [mapM]. rewrite Ha, IH; simpl. split; [done|].
    constructor; [by rewrite Ha|done].
Qed.

Lemma mapM_boxes_Ok (anns : list ObjectAnn) (ks : list nat) bs :
  mapM (fun i : nat => of_option IndexError (bbox <$> anns !! i)) ks = Ok bs ->
  Forall2 (fun i b => bbox <$> anns !! i = Some b) ks bs.
Proof.
  revert bs. induction ks as [|i ks IH]; intros bs; cbn [mapM].
  - intros [= <-]. constructor.
  - destruct (anns !! i) as [a|] eqn:Ha; simpl; [|done].
    destruct (mapM _ ks) as [bs'|]; simpl; [|done].
    intros [= <-]. constructor; [by rewrite Ha|by apply IH].
Qed.

Section TargetShape.
Context (E : Env).

(** The leading dimensions of a target: the number of kept annotations
    for boxes, labels, masks and area; for iscrowd the number of all the
    image's annotations in the index, unless nothing is kept. *)
Lemma target_of_shapes self anns image idx t :
  target_of E self anns image idx = Ok t ->
  let n := length (compute_kept (_cat_token_to_label self) anns).1 in
  shape0 (boxes t) = n /\ shape0 (labels t) = n /\ shape0 (masks t) = n /\
  shape0 (area t) = n /\
  shape0 (iscrowd t) = (if decide (n = 0%nat) then 0%nat else length anns).
Proof.
  unfold target_of.
  pose proof (compute_kept_lengths (_cat_token_to_label self) anns) as Hlen.
  destruct (compute_kept _ anns) as [ks ls]; simpl in *.
  destruct ks as [|i ks].
  - intros [= <-]. unfold empty_target. by destruct (size image).
  - match goal with
    | |- context [@mapM ?M ?H1 ?H2 ?A ?B ?f (i :: ks)] =>
        destruct (@mapM M H1 H2 A B f (i :: ks)) as [bs|] eqn:Hbs
    end; simpl; [|done].
    destruct (get_instance_mask _ _ _ _) as [layer|]; simpl; [|done].
    intros [= <-]. apply mapM_boxes_Ok, Forall2_length in Hbs.
    simpl in Hbs. unfold full_target, shape0; simpl.
    rewrite <- Hbs, Hlen, length_fmap. by repeat split.
Qed.

(** The boxes of a target are boxes of the annotations it is built from. *)
Lemma target_of_boxes self anns image idx t :
  target_of E self anns image idx = Ok t ->
  exists kept_boxes,
    boxes t = tensor_of_boxes kept_boxes /\
    Forall (fun b => exists a, a ∈ anns /\ bbox a = b) kept_boxes.
Proof.
  unfold target_of.
  destruct (compute_kept _ anns) as [ks ls]; simpl in *.
  destruct ks as [|i ks].
  - intros [= <-]. exists []. unfold empty_target.
    by destruct (size image).
  - match goal with
    | |- context [@mapM ?M ?H1 ?H2 ?A ?B ?f (i :: ks)] =>
        destruct (@mapM M H1 H2 A B f (i :: ks)) as [bs|] eqn:Hbs
    end; simpl; [|done].
    destruct (get_instance_mask _ _ _ _) as [layer|]; simpl; [|done].
    intros [= <-]. exists bs. split; [done|].
    apply mapM_boxes_Ok in Hbs.
    eapply Forall2_Forall_r; [exact Hbs|]. apply Forall_true.
    intros j b Hj. destruct (anns !! j) as [a|] eqn:Ha; [|done].
    injection Hj as <-. exists a. split; [|done].
    by eapply list_elem_of_lookup_2.
Qed.
End TargetShape.

(** ** The addressable samples *)

Lemma select_samples_foldl (tokens : gset string) samples : forall k acc,
  foldl (fun acc '(i, s) =>
           if decide (key_camera_token s ∈ tokens) then acc ++ [i] else acc)
        acc (enumerate k samples) =
  acc ++ (fst <$> filter (fun x : nat * Sample => key_camera_token x.2 ∈ tokens)
                         (enumerate k samples)).
Proof.
  induction samples as [|s samples IH]; intros k acc; simpl.
  - by rewrite app_nil_r.
  - rewrite IH, filter_cons; simpl.
    destruct (decide (key_camera_token s ∈ tokens)); simpl; [|done].
    by rewrite <- app_assoc.
Qed.

Lemma filter_enumerate_lookup (P : Sample -> Prop) `{!forall s, Decision (P s)}
  samples : forall prefix,
  (fun i => (prefix ++ samples) !! i) <$>
    (fst <$> filter (fun x : nat * Sample => P x.2)
                    (enumerate (length prefix) samples)) =
  Some <$> filter P samples.
Proof.
  induction samples as [|s samples IH]; intros prefix; [done|].
  assert (S (length prefix) = length (prefix ++ [s])) as Hlen
    by (rewrite length_app; simpl; lia).
  specialize (IH (prefix ++ [s])). rewrite <- app_assoc in IH.
  rewrite <- Hlen in IH. cbn [app] in IH. cbn [enumerate].
  rewrite !filter_cons. cbn [snd].
  destruct (decide (P s)); [|done].
  rewrite !fmap_cons, IH. cbn [fst]. by rewrite list_lookup_middle.
Qed.

(** The selected positions are those of the samples whose image owns a raw
    annotation, in table order. *)
Lemma select_samples_spec nu :
  (fun i => sample nu !! i) <$>
    select_samples (sd_tokens_with_objects (object_ann nu)) (sample nu) =
  Some <$> filter (owns_raw nu) (sample nu).
Proof.
  unfold select_samples. rewrite select_samples_foldl; simpl.
  rewrite <- (filter_enumerate_lookup (owns_raw nu) (sample nu) []); simpl.
  do 2 f_equal. apply list_filter_iff. intros [i s]; simpl.
  apply sd_tokens_with_objects_spec.
Qed.

Section Length.
Context (E : Env).

Lemma len_after_calls nu tr re ds idxs :
  __init__ E nu tr re = Ok ds ->
  __len__ (after_calls E ds idxs) = __len__ ds.
Proof.
  intros Hinit. apply init_coherent in Hinit.
  destruct (after_calls_spec E idxs ds Hinit) as [(_&_&_&_&Hs&_) _].
  unfold __len__. by rewrite Hs.
Qed.

(** C9.  With [remove_empty] set and at least one object annotation in the
    database, the length is the number of samples whose image owns a raw
    annotation, whatever the boxes of those annotations, and the kept
    samples are these, in table order. *)
Theorem len_remove_empty nu tr ds idxs :
  object_ann nu <> [] ->
  __init__ E nu tr true = Ok ds ->
  __len__ (after_calls E ds idxs) = length (filter (owns_raw nu) (sample nu)) /\
  (fun i => sample nu !! i) <$> samples_with_objects (after_calls E ds idxs)
    = Some <$> filter (owns_raw nu) (sample nu) /\
  (forall s o, s ∈ sample nu -> o ∈ object_ann nu ->
               sample_data_token o = key_camera_token s ->
               s ∈ filter (owns_raw nu) (sample nu)).
Proof.
  intros Hne Hinit.
  assert (samples_with_objects (after_calls E ds idxs) =
          select_samples (sd_tokens_with_objects (object_ann nu)) (sample nu))
    as Hsel.
  { pose proof (init_coherent E _ _ _ _ Hinit) as Hc.
    destruct (after_calls_spec E idxs ds Hc) as [(_&_&_&_&<-&_) _].
    apply init_Ok in Hinit as (Hh & _ & _ & _ & -> & _).
    rewrite Hh. destruct (object_ann nu); [done|]. done. }
  assert ((fun i => sample nu !! i) <$>
            samples_with_objects (after_calls E ds idxs)
          = Some <$> filter (owns_raw nu) (sample nu)) as Himg
    by (rewrite Hsel; apply select_samples_spec).
  split; [|split; [done|]].
  - unfold __len__.
    by rewrite <- (length_fmap (fun i => sample nu !! i)), Himg, length_fmap.
  - intros s o Hs Ho Heq. apply list_elem_of_filter. split; [|done].
    apply Exists_exists. by exists o.
Qed.

Lemma after_calls_test_split self idxs :
  has_ann self = false -> after_calls E self idxs = self.
Proof.
  intros Hh. induction idxs as [|idx idxs IH]; simpl; [done|].
  assert ((__getitem__ E self idx).2 = self) as ->; [|done].
  unfold __getitem__. destruct (load_image E self idx) as [[sd image]|];
    [|done]. by rewrite Hh.
Qed.

(** C10.  Without any object annotation in the database the dataset keeps
    every sample whatever [remove_empty] is, and a call returns the image it
    loads together with [None]; the transform hook takes no part in it. *)
Theorem getitem_test_split nu tr re ds idxs :
  object_ann nu = [] ->
  __init__ E nu tr re = Ok ds ->
  __len__ (after_calls E ds idxs) = length (sample nu) /\
  (forall idx,
     __getitem__ E (after_calls E ds idxs) idx =
     (match load_image E ds idx with
      | Ok (_, image) => Ok (image, None)
      | Raise e => Raise e
      end, after_calls E ds idxs)) /\
  (forall idx s sdata image,
     0 <= idx < Z.of_nat (length (sample nu)) ->
     sample nu !! Z.to_nat idx = Some s ->
     get_sample_data nu (key_camera_token s) = Some sdata ->
     open_rgb E (dataroot nu) (filename sdata) = Ok image ->
     __getitem__ E (after_calls E ds idxs) idx =
     (Ok (image, None), after_calls E ds idxs)).
Proof.
  intros Hnil Hinit.
  apply init_Ok in Hinit as (Hh & Hnu & Hroot & _ & Hs & _).
  rewrite Hnil in Hh; simpl in Hh. rewrite Hh, andb_false_r in Hs.
  rewrite (after_calls_test_split ds idxs Hh).
  assert (forall idx, __getitem__ E ds idx =
            (match load_image E ds idx with
             | Ok (_, image) => Ok (image, None)
             | Raise e => Raise e
             end, ds)) as Hget.
  { intros idx. unfold __getitem__.
    destruct (load_image E ds idx) as [[sd image]|]; [|done].
    by rewrite Hh. }
  split; [|split; [done|]].
  - unfold __len__. by rewrite Hs, length_seq.
  - intros idx s sdata image Hidx Hsample Hsd Himg. rewrite Hget.
    unfold load_image, py_index. rewrite Hs, Hnu, Hroot, length_seq.
    rewrite decide_True by lia.
    rewrite lookup_seq_lt by lia; simpl.
    by rewrite Hsample; simpl; rewrite Hsd; simpl; rewrite Himg.
Qed.
End Length.

Lemma len_remove_empty_witness :
  exists ds,
    __init__ demo_env db_scenario_a None true = Ok ds /\
    __len__ (after_calls demo_env ds [0; 1]) =
      length (filter (owns_raw db_scenario_a) (sample db_scenario_a)) /\
    (fun i => sample db_scenario_a !! i)
      <$> samples_with_objects (after_calls demo_env ds [0; 1])
      = Some <$> filter (owns_raw db_scenario_a) (sample db_scenario_a) /\
    (forall s o, s ∈ sample db_scenario_a -> o ∈ object_ann db_scenario_a ->
                 sample_data_token o = key_camera_token s ->
                 s ∈ filter (owns_raw db_scenario_a) (sample db_scenario_a)).
Proof.
  eexists. split; [reflexivity|].
  apply (len_remove_empty demo_env db_scenario_a None _ [0; 1]);
    [discriminate|reflexivity].
Defined.

(** Scenario A: three images, one without annotations, one whose only
    annotation has a flat box: two samples remain, the first and the third. *)
Example len_scenario_a :
  exists ds, __init__ demo_env db_scenario_a None true = Ok ds /\
             __len__ ds = 2%nat /\ samples_with_objects ds = [0; 2]%nat.
Proof. eexists. split; [reflexivity|]. split; by vm_compute. Qed.

Lemma getitem_test_split_witness :
  exists ds,
    __init__ demo_env db_test_split None true = Ok ds /\
    __len__ (after_calls demo_env ds [1]) = length (sample db_test_split) /\
    (forall idx,
       __getitem__ demo_env (after_calls demo_env ds [1]) idx =
       (match load_image demo_env ds idx with
        | Ok (_, image) => Ok (image, None)
        | Raise e => Raise e
        end, after_calls demo_env ds [1])) /\
    (forall idx s sdata image,
       0 <= idx < Z.of_nat (length (sample db_test_split)) ->
       sample db_test_split !! Z.to_nat idx = Some s ->
       get_sample_data db_test_split (key_camera_token s) = Some sdata ->
       open_rgb demo_env (dataroot db_test_split) (filename sdata) = Ok image ->
       __getitem__ demo_env (after_calls demo_env ds [1]) idx =
       (Ok (image, None), after_calls demo_env ds [1])).
Proof.
  eexists. split; [reflexivity|].
  apply (getitem_test_split demo_env db_test_split None true _ [1]);
    reflexivity.
Defined.

(** ** Targets *)

Section Targets.
Context (E : Env).

Lemma init_index_lookup nu tr re ds idxs sd :
  __init__ E nu tr re = Ok ds ->
  object_anns_dict (after_calls E ds idxs) !! sd =
  match raw_annotations nu sd with
  | [] => None
  | _ :: _ => Some (valid_annotations nu sd)
  end.
Proof.
  intros Hinit. pose proof (init_coherent E _ _ _ _ Hinit) as Hc.
  destruct (after_calls_spec E idxs ds Hc) as [(_&_&_&_&_&<-&_) _].
  apply init_Ok in Hinit as (_ & _ & _ & _ & _ & -> & _).
  apply build_object_anns_dict_lookup.
Qed.

(** An image with an entry in the index owns a raw annotation, so the
    dataset is not a test split. *)
Lemma init_index_has_ann nu tr re ds sd anns :
  __init__ E nu tr re = Ok ds ->
  object_anns_dict ds !! sd = Some anns ->
  has_ann ds = true /\ anns = valid_annotations nu sd.
Proof.
  intros Hinit Hd.
  pose proof (init_index_lookup nu tr re ds [] sd Hinit) as Hl.
  change (after_calls E ds []) with ds in Hl. rewrite Hl in Hd.
  apply init_Ok in Hinit as (-> & _).
  destruct (raw_annotations nu sd) as [|o os] eqn:Hraw; [done|].
  split; [|by injection Hd as <-].
  unfold raw_annotations in Hraw. by destruct (object_ann nu).
Qed.

(** C7.  An annotation whose box has non-positive width or height is left
    out when the index is built: in every state reached by calls, the
    index maps an image to its raw annotations with a positive box, and a
    target returned by a call is (the transform of) the target computed
    from these alone; every row of its boxes has positive width and
    height. *)
Theorem degenerate_annotations_excluded nu tr re ds idxs idx :
  __init__ E nu tr re = Ok ds ->
  (forall sd, object_anns_dict (after_calls E ds idxs) !! sd =
              match raw_annotations nu sd with
              | [] => None
              | _ :: _ => Some (valid_annotations nu sd)
              end) /\
  (forall sd o, o ∈ valid_annotations nu sd ->
                o ∈ object_ann nu /\
                0 < xmax (bbox o) - xmin (bbox o) /\
                0 < ymax (bbox o) - ymin (bbox o)) /\
  (forall r_image r_target,
     (__getitem__ E (after_calls E ds idxs) idx).1
       = Ok (r_image, Some r_target) ->
     exists sd image t kept_boxes,
       load_image E ds idx = Ok (sd, image) /\
       target_of E ds (valid_annotations nu sd) image idx = Ok t /\
       apply_transforms tr image t = Ok (r_image, Some r_target) /\
       boxes t = tensor_of_boxes kept_boxes /\
       Forall (fun b => 0 < xmax b - xmin b /\ 0 < ymax b - ymin b)
              kept_boxes).
Proof.
  intros Hinit. split; [|split].
  - intros sd. by eapply init_index_lookup.
  - intros sd o Ho. unfold valid_annotations, raw_annotations in Ho.
    apply list_elem_of_filter in Ho as [Hnd Ho].
    apply list_elem_of_filter in Ho as [_ Ho]. by split.
  - intros r_image r_target.
    destruct (getitem_after_calls E nu tr re ds idxs idx Hinit) as [-> _].
    unfold item_of.
    destruct (load_image E ds idx) as [[sd image]|] eqn:Hload; simpl;
      [|done].
    destruct (has_ann ds); simpl; [|done].
    destruct (object_anns_dict ds !! sd) as [anns|] eqn:Hd; simpl; [|done].
    destruct (init_index_has_ann nu tr re ds sd anns Hinit Hd) as [_ ->].
    destruct (target_of E ds _ image idx) as [t|] eqn:Ht; simpl; [|done].
    apply init_Ok in Hinit as (_ & _ & _ & -> & _).
    intros Hres.
    destruct (target_of_boxes E _ _ _ _ _ Ht) as (kept_boxes & Hb & Hall).
    exists sd, image, t, kept_boxes. repeat split; [done..|].
    eapply Forall_impl; [exact Hall|]. intros b (a & Ha & <-).
    apply list_elem_of_filter in Ha as [Hnd _]. exact Hnd.
Qed.

(** C8 (amended).  For an addressable image that owns at least one raw
    annotation and whose filtered annotations all have an unmapped category,
    a call builds the empty target, boxes of shape (0, 4), masks of shape
    (0, H, W) with the height and width of the image read, and labels, area
    and iscrowd of length 0, and returns it normally: as it is when no
    transform is configured, and else as the result of the hook on it. *)
Theorem getitem_all_unmapped nu tr re ds idxs idx sd image :
  __init__ E nu tr re = Ok ds ->
  load_image E ds idx = Ok (sd, image) ->
  raw_annotations nu sd <> [] ->
  Forall (fun a => label_of (_cat_token_to_label ds) a = None)
         (valid_annotations nu sd) ->
  (__getitem__ E (after_calls E ds idxs) idx).1
    = apply_transforms tr image (empty_target image idx) /\
  (tr = None ->
   (__getitem__ E (after_calls E ds idxs) idx).1
     = Ok (image, Some (empty_target image idx))) /\
  shape (boxes (empty_target image idx)) = [0; 4]%nat /\
  shape (masks (empty_target image idx))
    = [0; (size image).2; (size image).1]%nat /\
  shape (labels (empty_target image idx)) = [0%nat] /\
  shape (area (empty_target image idx)) = [0%nat] /\
  shape (iscrowd (empty_target image idx)) = [0%nat].
Proof.
  intros Hinit Hload Hraw Hun.
  assert (object_anns_dict ds !! sd = Some (valid_annotations nu sd)) as Hd.
  { pose proof (init_index_lookup nu tr re ds [] sd Hinit) as Hl.
    change (after_calls E ds []) with ds in Hl. rewrite Hl.
    by destruct (raw_annotations nu sd). }
  assert ((__getitem__ E (after_calls E ds idxs) idx).1
          = apply_transforms tr image (empty_target image idx)) as Hres.
  { destruct (getitem_after_calls E nu tr re ds idxs idx Hinit) as [-> _].
    unfold item_of. rewrite Hload; simpl.
    destruct (init_index_has_ann nu tr re ds sd _ Hinit Hd) as [-> _].
    simpl. rewrite Hd; simpl. unfold target_of.
    rewrite (compute_kept_unmapped _ _ Hun); simpl.
    by apply init_Ok in Hinit as (_ & _ & _ & -> & _). }
  split; [done|]. split; [by intros ->|].
  unfold empty_target. by destruct (size image).
Qed.

(** With [remove_empty] unset every sample is addressable. *)
Lemma len_keep_all nu tr ds idxs :
  __init__ E nu tr false = Ok ds ->
  __len__ (after_calls E ds idxs) = length (sample nu).
Proof.
  intros Hinit. rewrite (len_after_calls E nu tr false ds idxs Hinit).
  apply init_Ok in Hinit as (_ & _ & _ & _ & Hs & _).
  unfold __len__. rewrite Hs. apply length_seq.
Qed.

(** With annotations in the database, a call on an image that owns no raw
    annotation raises [KeyError]: the index has no entry for it. *)
Lemma getitem_no_raw_annotation nu tr re ds idxs idx sd image :
  __init__ E nu tr re = Ok ds ->
  object_ann nu <> [] ->
  load_image E ds idx = Ok (sd, image) ->
  raw_annotations nu sd = [] ->
  (__getitem__ E (after_calls E ds idxs) idx).1 = Raise KeyError.
Proof.
  intros Hinit Hne Hload Hraw.
  destruct (getitem_after_calls E nu tr re ds idxs idx Hinit) as [-> _].
  unfold item_of. rewrite Hload; simpl.
  pose proof (init_index_lookup nu tr re ds [] sd Hinit) as Hd.
  change (after_calls E ds []) with ds in Hd.
  rewrite Hraw in Hd. rewrite Hd.
  apply init_Ok in Hinit as (-> & _).
  by destruct (object_ann nu).
Qed.

(** A second call on the same index returns what the first returned. *)
Lemma getitem_twice nu tr re ds idxs idx :
  __init__ E nu tr re = Ok ds ->
  (__getitem__ E (__getitem__ E (after_calls E ds idxs) idx).2 idx).1
    = (__getitem__ E (after_calls E ds idxs) idx).1.
Proof.
  intros Hinit.
  assert ((__getitem__ E (after_calls E ds idxs) idx).2
          = after_calls E ds (idxs ++ [idx])) as ->.
  { unfold after_calls. by rewrite foldl_app. }
  destruct (getitem_after_calls E nu tr re ds (idxs ++ [idx]) idx Hinit)
    as [-> _].
  by destruct (getitem_after_calls E nu tr re ds idxs idx Hinit) as [-> _].
Qed.
End Targets.

Lemma degenerate_annotations_excluded_witness :
  exists ds,
    __init__ demo_env db_scenario_b None true = Ok ds /\
    (forall sd, object_anns_dict (after_calls demo_env ds [0; 0]) !! sd =
                match raw_annotations db_scenario_b sd with
                | [] => None
                | _ :: _ => Some (valid_annotations db_scenario_b sd)
                end) /\
    (forall sd o, o ∈ valid_annotations db_scenario_b sd ->
                  o ∈ object_ann db_scenario_b /\
                  0 < xmax (bbox o) - xmin (bbox o) /\
                  0 < ymax (bbox o) - ymin (bbox o)) /\
    (forall r_image r_target,
       (__getitem__ demo_env (after_calls demo_env ds [0; 0]) 0).1
         = Ok (r_image, Some r_target) ->
       exists sd image t kept_boxes,
         load_image demo_env ds 0 = Ok (sd, image) /\
         target_of demo_env ds (valid_annotations db_scenario_b sd) image 0
           = Ok t /\
         apply_transforms None image t = Ok (r_image, Some r_target) /\
         boxes t = tensor_of_boxes kept_boxes /\
         Forall (fun b => 0 < xmax b - xmin b /\ 0 < ymax b - ymin b)
                kept_boxes).
Proof.
  eexists. split; [reflexivity|].
  apply (degenerate_annotations_excluded demo_env db_scenario_b None true _
           [0; 0] 0).
  reflexivity.
Defined.

(** Scenario B: of two annotations, the one with the box [10, 10, 5, 20] is
    dropped; the target has one object, also on a repeated call. *)
Example getitem_scenario_b :
  exists ds t,
    __init__ demo_env db_scenario_b None true = Ok ds /\
    (__getitem__ demo_env ds 0).1 = Ok (demo_image, Some t) /\
    (__getitem__ demo_env (after_calls demo_env ds [0]) 0).1
      = Ok (demo_image, Some t) /\
    boxes t = tensor_of_boxes [box_a] /\
    shape (masks t) = [1; 1; 2]%nat /\ data (masks t) = [1; 0] /\
    shape0 (iscrowd t) = 1%nat.
Proof.
  eexists. eexists. split; [reflexivity|].
  split; [by vm_compute|]. split; [by vm_compute|]. repeat split.
Qed.

Lemma getitem_all_unmapped_witness :
  exists ds,
    __init__ demo_env db_scenario_c None true = Ok ds /\
    (__getitem__ demo_env (after_calls demo_env ds [0]) 0).1
      = apply_transforms None demo_image (empty_target demo_image 0) /\
    (@None Transform = None ->
     (__getitem__ demo_env (after_calls demo_env ds [0]) 0).1
       = Ok (demo_image, Some (empty_target demo_image 0))) /\
    shape (boxes (empty_target demo_image 0)) = [0; 4]%nat /\
    shape (masks (empty_target demo_image 0))
      = [0; (size demo_image).2; (size demo_image).1]%nat /\
    shape (labels (empty_target demo_image 0)) = [0%nat] /\
    shape (area (empty_target demo_image 0)) = [0%nat] /\
    shape (iscrowd (empty_target demo_image 0)) = [0%nat].
Proof.
  eexists. split; [reflexivity|].
  apply (getitem_all_unmapped demo_env db_scenario_c None true _ [0] 0
           "sd-0" demo_image).
  - reflexivity.
  - by vm_compute.
  - by vm_compute.
  - repeat constructor; by vm_compute.
Defined.

(** Scenario C: two annotations of an unmapped category give the empty
    target, with masks of shape (0, 1, 2) for the 2x1 image. *)
Example getitem_scenario_c :
  exists ds,
    __init__ demo_env db_scenario_c None true = Ok ds /\
    (__getitem__ demo_env ds 0).1
      = Ok (demo_image, Some (empty_target demo_image 0)) /\
    shape (masks (empty_target demo_image 0)) = [0; 1; 2]%nat.
Proof. eexists. split; [reflexivity|]. split; by vm_compute. Qed.

(** C8 as stated fails in the test split: the image is addressable and has
    no filtered annotation, so each of them is unmapped, yet the call returns
    the image with [None], not an empty target. *)
Lemma getitem_test_split_has_no_target :
  exists ds,
    __init__ demo_env db_test_split None true = Ok ds /\
    load_image demo_env ds 0 = Ok ("sd-0"%string, demo_image) /\
    valid_annotations db_test_split "sd-0" = [] /\
    Forall (fun a => label_of (_cat_token_to_label ds) a = None)
           (valid_annotations db_test_split "sd-0") /\
    (__getitem__ demo_env ds 0).1 = Ok (demo_image, None) /\
    (__getitem__ demo_env ds 0).1
      <> Ok (demo_image, Some (empty_target demo_image 0)).
Proof.
  eexists. split; [reflexivity|]. split; [by vm_compute|].
  split; [by vm_compute|]. split; [by constructor|].
  split; [by vm_compute|]. vm_compute. congruence.
Qed.

(** C1.  With [remove_empty] unset every sample is addressable, but on the
    second image, which owns no raw annotation, the call raises [KeyError]
    where an empty target is expected: the annotation index has entries only
    for images that own an annotation. *)
Theorem getitem_unannotated_image_raises :
  exists ds,
    __init__ demo_env db_unannotated None false = Ok ds /\
    __len__ ds = 2%nat /\
    raw_annotations db_unannotated "sd-1" = [] /\
    load_image demo_env ds 1 = Ok ("sd-1", demo_image) /\
    (__getitem__ demo_env ds 1).1 = Raise KeyError.
Proof.
  eexists. split; [reflexivity|]. repeat split; by vm_compute.
Qed.

(** C2.  The boxes follow the order of the image's annotations in the
    index, the layer indices follow the token order: with "b" listed before
    "a", the first mask of the target is the decoded mask of "a", while the
    first box and the first label are those of "b". *)
Theorem getitem_masks_follow_token_order :
  exists ds t,
    __init__ demo_env db_unsorted None true = Ok ds /\
    object_anns_dict ds !! "sd-0" = Some [ann_b; ann_a] /\
    (__getitem__ demo_env ds 0).1 = Ok (demo_image, Some t) /\
    boxes t = tensor_of_boxes [bbox ann_b; bbox ann_a] /\
    shape (masks t) = [2; 1; 2]%nat /\
    data (masks t) = [0; 1] ++ [1; 0] /\
    (m ← of_option KeyError (mask ann_b); mask_decode demo_env m)
      = Ok {| nd_shape := (1%nat, 2%nat); nd_data := [1; 0] |} /\
    (m ← of_option KeyError (mask ann_a); mask_decode demo_env m)
      = Ok {| nd_shape := (1%nat, 2%nat); nd_data := [0; 1] |}.
Proof.
  eexists. eexists. split; [reflexivity|].
  split; [by vm_compute|]. split; [by vm_compute|]. repeat split.
Qed.

(** C3.  With one annotation of a mapped category and one of an unmapped
    category, boxes, labels, masks and area have one row, iscrowd has two:
    its length is the number of the image's annotations in the index, not the
    number of kept ones. *)
Theorem getitem_iscrowd_length_differs :
  exists ds t,
    __init__ demo_env db_mixed None true = Ok ds /\
    (__getitem__ demo_env ds 0).1 = Ok (demo_image, Some t) /\
    shape0 (boxes t) = 1%nat /\ shape0 (labels t) = 1%nat /\
    shape0 (masks t) = 1%nat /\ shape0 (area t) = 1%nat /\
    shape0 (iscrowd t) = 2%nat.
Proof.
  eexists. eexists. split; [reflexivity|].
  split; [by vm_compute|]. repeat split.
Qed.

(** * Further properties of the dataset *)

(** ** The caches *)

Section Caches.
Context (E : Env).

(** Whatever calls came before, a call returns what it returns on the
    freshly constructed dataset; in particular a call repeated at once
    returns the same item. *)
Theorem getitem_cache_transparent nu tr re ds idxs idx :
  __init__ E nu tr re = Ok ds ->
  (__getitem__ E (after_calls E ds idxs) idx).1 = (__getitem__ E ds idx).1 /\
  (__getitem__ E (__getitem__ E (after_calls E ds idxs) idx).2 idx).1
    = (__getitem__ E (after_calls E ds idxs) idx).1.
Proof.
  intros Hinit. split.
  - destruct (getitem_after_calls E nu tr re ds idxs idx Hinit) as [-> _].
    by destruct (getitem_after_calls E nu tr re ds [] idx Hinit) as [<- _].
  - by eapply getitem_twice.
Qed.

Lemma kept_for_frame self sd anns :
  same_index self (kept_for self sd anns).2 /\
  same_category_ids self (kept_for self sd anns).2 /\
  _kept_cache self ⊆ _kept_cache (kept_for self sd anns).2 /\
  _inst_mask_cache (kept_for self sd anns).2 = _inst_mask_cache self.
Proof.
  unfold kept_for. destruct (_kept_cache self !! sd) eqn:Hk; simpl.
  - split; [apply same_index_refl|done].
  - split; [apply same_index_set_kept_cache|]. split; [done|].
    split; [|done]. by apply insert_subseteq.
Qed.

Lemma instance_mask_for_frame self sd image anns :
  same_index self (instance_mask_for E self sd image anns).2 /\
  same_category_ids self (instance_mask_for E self sd image anns).2 /\
  _kept_cache (instance_mask_for E self sd image anns).2 = _kept_cache self /\
  _inst_mask_cache self
    ⊆ _inst_mask_cache (instance_mask_for E self sd image anns).2 /\
  (forall e, (instance_mask_for E self sd image anns).1 = Raise e ->
             (instance_mask_for E self sd image anns).2 = self).
Proof.
  unfold instance_mask_for.
  destruct (_inst_mask_cache self !! sd) eqn:Hk; simpl.
  - split; [apply same_index_refl|done].
  - destruct (get_instance_mask E (nuimages self) image anns); simpl.
    + split; [apply same_index_set_inst_mask_cache|]. split; [done|].
      split; [done|]. split; [by apply insert_subseteq|done].
    + split; [apply same_index_refl|done].
Qed.

(** A call changes nothing of the dataset object but its two caches, and it
    neither removes nor overwrites a cache entry: what was cached before the
    call is cached, with the same value, after it. *)
Theorem getitem_only_fills_caches self idx :
  same_index self (__getitem__ E self idx).2 /\
  _category_name_to_id (__getitem__ E self idx).2 = _category_name_to_id self /\
  category_names (__getitem__ E self idx).2 = category_names self /\
  _kept_cache self ⊆ _kept_cache (__getitem__ E self idx).2 /\
  _inst_mask_cache self ⊆ _inst_mask_cache (__getitem__ E self idx).2.
Proof.
  unfold __getitem__.
  destruct (load_image E self idx) as [[sd image]|]; simpl;
    [|by split; [apply same_index_refl|]].
  destruct (has_ann self); simpl; [|by split; [apply same_index_refl|]].
  destruct (object_anns_dict self !! sd) as [anns|]; simpl;
    [|by split; [apply same_index_refl|]].
  destruct (kept_for_frame self sd anns) as (Hs1 & [Hc1 Hc1'] & Hk1 & Hi1).
  destruct (kept_for self sd anns) as [[kept_indices kept_labels] self1].
  simpl in Hs1, Hc1, Hc1', Hk1, Hi1.
  destruct kept_indices as [|i0 rest]; simpl.
  { split; [done|]. split; [done|]. split; [done|]. split; [done|].
    by rewrite Hi1. }
  match goal with
  | |- context [match ?m with Ok _ => _ | Raise _ => _ end] =>
      destruct m as [kept_boxes|]
  end; simpl.
  2: { split; [done|]. split; [done|]. split; [done|]. split; [done|].
       by rewrite Hi1. }
  destruct (instance_mask_for_frame self1 sd image anns)
    as (Hs2 & [Hc2 Hc2'] & Hk2 & Hi2 & _).
  destruct (instance_mask_for E self1 sd image anns) as [[layer|e] self2];
    simpl in *;
    (split; [by eapply same_index_trans|]);
    (split; [congruence|]); (split; [congruence|]);
    (split; [by rewrite Hk2|by rewrite <- Hi1]).
Qed.

Lemma apply_transforms_Raise tr image target e :
  apply_transforms tr image target = Raise e ->
  exists f, tr = Some f /\ f image target = Raise e.
Proof.
  unfold apply_transforms. destruct tr as [f|]; [|done].
  destruct (f image target) as [[image' target']|e'] eqn:Hf; simpl; [done|].
  intros [= <-]. by exists f.
Qed.

(** A call that raises stores no instance layer, unless it is the transform
    hook that raised: either the layer cache is the same after the call as
    before it, or a hook is configured and the exception is the one the hook
    raised on the item built for it.  Without a hook, a call that raises
    never stores a layer. *)
Theorem getitem_raise_stores_no_layer self idx e :
  (__getitem__ E self idx).1 = Raise e ->
  (_inst_mask_cache (__getitem__ E self idx).2 = _inst_mask_cache self \/
   exists f image target,
     transforms self = Some f /\ f image target = Raise e) /\
  (transforms self = None ->
   _inst_mask_cache (__getitem__ E self idx).2 = _inst_mask_cache self).
Proof.
  intros Hraise.
  assert (_inst_mask_cache (__getitem__ E self idx).2 = _inst_mask_cache self
          \/ exists f image target,
               transforms self = Some f /\ f image target = Raise e) as Hor.
  { revert Hraise. unfold __getitem__.
    destruct (load_image E self idx) as [[sd image]|]; simpl; [|by left].
    destruct (has_ann self); simpl; [|by left].
    destruct (object_anns_dict self !! sd) as [anns|]; simpl; [|by left].
    destruct (kept_for_frame self sd anns) as (Hs1 & _ & _ & Hi1).
    destruct (kept_for self sd anns) as [[kept_indices kept_labels] self1].
    simpl in Hs1, Hi1.
    destruct kept_indices as [|i0 rest]; simpl; [by left|].
    match goal with
    | |- context [match ?m with Ok _ => _ | Raise _ => _ end] =>
        destruct m as [kept_boxes|]
    end; simpl; [|by left].
    destruct (instance_mask_for_frame self1 sd image anns)
      as (Hs2 & _ & _ & _ & Hr).
    destruct (instance_mask_for E self1 sd image anns) as [[layer|e'] self2];
      simpl in *.
    - intros Hhook. right.
      apply apply_transforms_Raise in Hhook as (f & Hf & Hfe).
      exists f, image, (full_target anns (i0 :: rest) kept_labels kept_boxes
                          layer idx).
      split; [|done]. destruct Hs1 as (_&_&_&->&_).
      by destruct Hs2 as (_&_&_&->&_).
    - intros _. left. by rewrite (Hr e' eq_refl). }
  split; [done|]. intros Hnone.
  destruct Hor as [?|(f & _ & _ & Hf & _)]; [done|congruence].
Qed.
End Caches.

(** ** Construction *)

Section InitProperties.
Context (E : Env).

Lemma add_cat_label_cases m cat :
  match add_cat_label E m cat with
  | Ok m' =>
      m' = <[c_token cat := reduced_label E cat]> m /\
      forall coarse, NAME_MAPPING E !! name cat = Some coarse ->
                     is_Some (CLASS_TO_ID E !! coarse)
  | Raise e =>
      e = KeyError /\
      exists coarse, NAME_MAPPING E !! name cat = Some coarse /\
                     CLASS_TO_ID E !! coarse = None
  end.
Proof.
  unfold add_cat_label, reduced_label.
  destruct (NAME_MAPPING E !! name cat) as [coarse|] eqn:Hn; simpl.
  - destruct (CLASS_TO_ID E !! coarse) as [id|] eqn:Hc; simpl.
    + split; [done|]. intros ? [= <-]. by rewrite Hc.
    + split; [done|]. by exists coarse.
  - by split.
Qed.

Lemma for_each_add_cat_label_cases cats : forall m,
  match for_each (add_cat_label E) cats m with
  | Ok m' =>
      Forall (fun cat => forall coarse,
                NAME_MAPPING E !! name cat = Some coarse ->
                is_Some (CLASS_TO_ID E !! coarse)) cats /\
      (forall tok, tok ∉ c_token <$> cats -> m' !! tok = m !! tok) /\
      (NoDup (c_token <$> cats) ->
       forall cat, cat ∈ cats -> m' !! c_token cat = Some (reduced_label E cat))
  | Raise e =>
      e = KeyError /\
      Exists (fun cat => exists coarse,
                NAME_MAPPING E !! name cat = Some coarse /\
                CLASS_TO_ID E !! coarse = None) cats
  end.
Proof.
  induction cats as [|c cats IH]; intros m; cbn [for_each].
  - split; [constructor|]. split; [done|]. intros _ cat Hc.
    by apply elem_of_nil in Hc.
  - pose proof (add_cat_label_cases m c) as Hc.
    destruct (add_cat_label E m c) as [m1|e]; simpl.
    + destruct Hc as [-> Hok]. specialize (IH (<[c_token c:=reduced_label E c]> m)).
      destruct (for_each _ cats _) as [m'|e].
      * destruct IH as (Hall & Hout & Hin). split; [by constructor|]. split.
        -- intros tok Htok. rewrite ?fmap_cons, not_elem_of_cons in Htok.
           destruct Htok as [Hne Htok]. rewrite (Hout tok Htok).
           by rewrite lookup_insert_ne.
        -- intros Hnd cat Hcat. rewrite ?fmap_cons in Hnd.
           apply NoDup_cons in Hnd as [Hfresh Hnd].
           apply elem_of_cons in Hcat as [->|Hcat]; [|by apply Hin].
           rewrite (Hout _ Hfresh). by rewrite lookup_insert_eq.
      * destruct IH as [-> Hex]. split; [done|]. by apply Exists_cons_tl.
    + destruct Hc as [-> Hex]. split; [done|]. by apply Exists_cons_hd.
Qed.

(** Construction fails exactly when some category's fine name is mapped to
    a coarse name that has no id in [CLASS_TO_ID], and then with a
    [KeyError]; a category whose fine name is not in [NAME_MAPPING] is no
    error. *)
Theorem init_fails_on_missing_class_id nu tr re :
  match __init__ E nu tr re with
  | Ok _ =>
      Forall (fun cat => forall coarse,
                NAME_MAPPING E !! name cat = Some coarse ->
                is_Some (CLASS_TO_ID E !! coarse)) (category nu)
  | Raise e =>
      e = KeyError /\
      Exists (fun cat => exists coarse,
                NAME_MAPPING E !! name cat = Some coarse /\
                CLASS_TO_ID E !! coarse = None) (category nu)
  end.
Proof.
  unfold __init__. destruct (build_category_ids (category nu)) as [ids names].
  pose proof (for_each_add_cat_label_cases (category nu) ∅) as H.
  destruct (for_each (add_cat_label E) (category nu) ∅) as [m|e]; simpl.
  - by destruct H as [H _].
  - done.
Qed.

(** When category tokens are pairwise distinct, the label table maps the
    token of every category to the label that [NAME_MAPPING] and
    [CLASS_TO_ID] give to its name (no label when the name is not in
    [NAME_MAPPING]), and has no entry for any other token; so an annotation
    gets the label of its category, and none when its category token is
    unknown. *)
Theorem cat_token_to_label_lookup nu tr re ds :
  __init__ E nu tr re = Ok ds ->
  NoDup (c_token <$> category nu) ->
  (forall cat, cat ∈ category nu ->
     _cat_token_to_label ds !! c_token cat = Some (reduced_label E cat)) /\
  (forall tok, tok ∉ c_token <$> category nu ->
     _cat_token_to_label ds !! tok = None) /\
  (forall a cat, cat ∈ category nu -> category_token a = c_token cat ->
     label_of (_cat_token_to_label ds) a = reduced_label E cat) /\
  (forall a, category_token a ∉ c_token <$> category nu ->
     label_of (_cat_token_to_label ds) a = None).
Proof.
  intros Hinit Hnd.
  apply init_Ok in Hinit as (_ & _ & _ & _ & _ & _ & Hct & _).
  pose proof (for_each_add_cat_label_cases (category nu) ∅) as H.
  rewrite Hct in H. destruct H as (_ & Hout & Hin).
  assert (forall cat, cat ∈ category nu ->
            _cat_token_to_label ds !! c_token cat = Some (reduced_label E cat))
    as H1 by (by apply Hin).
  assert (forall tok, tok ∉ c_token <$> category nu ->
            _cat_token_to_label ds !! tok = None) as H2.
  { intros tok Htok. by rewrite (Hout tok Htok), lookup_empty. }
  split; [done|]. split; [done|]. split.
  - intros a cat Hcat Htok. unfold label_of. by rewrite Htok, (H1 cat Hcat).
  - intros a Ha. unfold label_of. by rewrite (H2 _ Ha).
Qed.

Lemma build_category_ids_foldl (cats : list Category) :
  forall (k : nat) (ids0 : gmap string nat) (names0 : list string),
  let r := foldl (fun '(ids, names) '(i, c) =>
                    (<[name c := S i]> ids, names ++ [name c]))
                 (ids0, names0) (enumerate k cats) in
  r.2 = names0 ++ (name <$> cats) /\
  (forall n id, r.1 !! n = Some id ->
     ids0 !! n = Some id \/
     exists j c, cats !! j = Some c /\ name c = n /\ id = S (k + j)) /\
  (forall n, is_Some (ids0 !! n) \/ n ∈ name <$> cats -> is_Some (r.1 !! n)).
Proof.
  induction cats as [|c cats IH]; intros k ids0 names0; simpl.
  - rewrite app_nil_r. split; [done|]. split; [by left|].
    intros n [H|H]; [done|]. by apply elem_of_nil in H.
  - destruct (IH (S k) (<[name c := S k]> ids0) (names0 ++ [name c]))
      as (Hn & Hid & Hdom).
    split; [by rewrite Hn, <- app_assoc|]. split.
    + intros n id Hl. destruct (Hid n id Hl) as [H0|(j & c' & Hj & Hc' & ->)].
      * apply lookup_insert_Some in H0 as [[<- <-]|[_ H0]]; [|by left].
        right. exists 0%nat, c. rewrite Nat.add_0_r. by split.
      * right. exists (S j), c'. split; [done|]. split; [done|]. lia.
    + intros n Hn'. apply Hdom.
      destruct (decide (name c = n)) as [<-|Hne].
      * left. by rewrite lookup_insert_eq.
      * destruct Hn' as [H0|H1]; [left; by rewrite lookup_insert_ne|].
        right. apply elem_of_cons in H1 as [->|H1]; [done|done].
Qed.

(** The category ids: [category_names] lists 'background' and then the
    category names in table order, as many entries as the driver's
    [num_classes]; every id in [_category_name_to_id] lies between 1 and the
    number of categories, never the background's 0, and leads back to its
    name in [category_names]; every category name has an id. *)
Theorem category_ids_round_trip nu tr re ds :
  __init__ E nu tr re = Ok ds ->
  category_names ds = "background"%string :: (name <$> category nu) /\
  length (category_names ds) = num_classes nu /\
  (forall n id, _category_name_to_id ds !! n = Some id ->
     (1 <= id < num_classes nu)%nat /\ category_names ds !! id = Some n) /\
  (forall cat, cat ∈ category nu ->
     is_Some (_category_name_to_id ds !! name cat)).
Proof.
  unfold __init__, build_category_ids.
  destruct (build_category_ids_foldl (category nu) 0 ∅ ["background"%string])
    as (Hn & Hid & Hdom).
  destruct (foldl _ _ (enumerate 0 (category nu))) as [ids names].
  simpl in Hn, Hid, Hdom.
  destruct (for_each (add_cat_label E) (category nu) ∅) as [ct2l|]; simpl;
    [|done].
  intros [= <-]; simpl. subst names. split; [done|].
  split; [unfold num_classes; simpl; rewrite length_fmap; lia|]. split.
  - intros n id Hl. destruct (Hid n id Hl) as [H0|(j & c & Hj & Hc & ->)];
      [by rewrite lookup_empty in H0|].
    pose proof (lookup_lt_Some _ _ _ Hj) as Hlt. unfold num_classes.
    split; [lia|]. simpl. by rewrite list_lookup_fmap, Hj; simpl; rewrite Hc.
  - intros cat Hcat. apply Hdom. right. apply list_elem_of_fmap. by exists cat.
Qed.

Lemma fst_enumerate {A} (l : list A) : forall k,
  fst <$> enumerate k l = seq k (length l).
Proof.
  induction l as [|x l IH]; intros k; simpl; [done|]. by rewrite IH.
Qed.

Lemma select_samples_sublist (tokens : gset string) samples :
  select_samples tokens samples `sublist_of` seq 0 (length samples).
Proof.
  unfold select_samples. rewrite select_samples_foldl; simpl.
  rewrite <- (fst_enumerate samples 0). apply fmap_sublist, sublist_filter.
Qed.

Lemma samples_with_objects_sublist nu tr re ds :
  __init__ E nu tr re = Ok ds ->
  samples_with_objects ds `sublist_of` seq 0 (length (sample nu)).
Proof.
  intros Hinit. apply init_Ok in Hinit as (_ & _ & _ & _ & Hs & _).
  rewrite Hs. destruct (re && has_ann ds); [|done].
  apply select_samples_sublist.
Qed.

Lemma samples_with_objects_lookup nu tr re ds i :
  __init__ E nu tr re = Ok ds ->
  i ∈ samples_with_objects ds -> is_Some (sample nu !! i).
Proof.
  intros Hinit Hi.
  pose proof (samples_with_objects_sublist nu tr re ds Hinit) as Hsub.
  apply sublist_subseteq in Hsub. apply Hsub in Hi.
  apply elem_of_seq in Hi. apply lookup_lt_is_Some_2. lia.
Qed.

(** The addressable samples are positions of the sample table, strictly
    increasing: a sublist of [0, ..., len(sample) - 1].  So no sample is
    addressed twice, every position is valid, and the length of the dataset
    is at most the number of samples. *)
Theorem samples_with_objects_valid nu tr re ds :
  __init__ E nu tr re = Ok ds ->
  samples_with_objects ds `sublist_of` seq 0 (length (sample nu)) /\
  NoDup (samples_with_objects ds) /\
  (forall i, i ∈ samples_with_objects ds -> is_Some (sample nu !! i)) /\
  (__len__ ds <= length (sample nu))%nat.
Proof.
  intros Hinit.
  pose proof (samples_with_objects_sublist nu tr re ds Hinit) as Hsub.
  split; [done|]. split; [|split].
  - eapply sublist_NoDup; [apply NoDup_seq|exact Hsub].
  - intros i. by eapply samples_with_objects_lookup.
  - apply sublist_length in Hsub. by rewrite length_seq in Hsub.
Qed.
End InitProperties.

(** ** Index resolution and the annotation index *)

Section PyIndex.
Context {A : Type}.

Lemma py_index_in_range (l : list A) (idx : Z) :
  - Z.of_nat (length l) <= idx < Z.of_nat (length l) ->
  exists x, py_index l idx = Ok x /\ x ∈ l.
Proof.
  intros Hr. unfold py_index. destruct (decide (0 <= idx)).
  - destruct (lookup_lt_is_Some_2 l (Z.to_nat idx)) as [x Hx]; [lia|].
    exists x. rewrite Hx. split; [done|]. by eapply list_elem_of_lookup_2.
  - rewrite decide_True by lia.
    destruct (lookup_lt_is_Some_2 l (Z.to_nat (Z.of_nat (length l) + idx)))
      as [x Hx]; [lia|].
    exists x. rewrite Hx. split; [done|]. by eapply list_elem_of_lookup_2.
Qed.

Lemma py_index_out_of_range (l : list A) (idx : Z) :
  idx < - Z.of_nat (length l) \/ Z.of_nat (length l) <= idx ->
  py_index l idx = Raise IndexError.
Proof.
  intros Hr. unfold py_index. destruct (decide (0 <= idx)).
  - by rewrite lookup_ge_None_2 by lia.
  - by rewrite decide_False by lia.
Qed.

Lemma py_index_negative (l : list A) (idx : Z) :
  0 <= idx < Z.of_nat (length l) ->
  py_index l (idx - Z.of_nat (length l)) = py_index l idx.
Proof.
  intros Hr. unfold py_index.
  rewrite (decide_True (P := 0 <= idx)) by lia.
  rewrite decide_False by lia. rewrite decide_True by lia.
  by replace (Z.of_nat (length l) + (idx - Z.of_nat (length l))) with idx by lia.
Qed.

Lemma py_index_Ok_elem (l : list A) (idx : Z) x :
  py_index l idx = Ok x -> x ∈ l.
Proof.
  unfold py_index. repeat case_decide; try done;
    (destruct (l !! _) eqn:Hl; simpl; [|done]); intros [= <-];
    by eapply list_elem_of_lookup_2.
Qed.
End PyIndex.

Lemma select_samples_elem (tokens : gset string) samples i :
  i ∈ select_samples tokens samples ->
  exists s, samples !! i = Some s /\ key_camera_token s ∈ tokens.
Proof.
  unfold select_samples. rewrite select_samples_foldl; simpl.
  intros Hi. apply list_elem_of_fmap in Hi as ([j s] & -> & Hjs).
  apply list_elem_of_filter in Hjs as [Hp Hjs]. simpl in *.
  apply list_elem_of_lookup in Hjs as [k Hk].
  rewrite enumerate_lookup in Hk.
  destruct (samples !! k) as [s'|] eqn:Hs; simpl in Hk; [|done].
  injection Hk as <- <-. by exists s'.
Qed.

Section IndexProperties.
Context (E : Env).

(** The annotation index has an entry exactly for the images that own a
    raw annotation; an entry holds exactly the raw annotations of its image
    that have a box of positive width and height, in table order; so every
    raw annotation with such a box is in the entry of its image, and in no
    other. *)
Theorem index_partitions_annotations nu tr re ds :
  __init__ E nu tr re = Ok ds ->
  (forall sd, is_Some (object_anns_dict ds !! sd) <->
              Exists (fun o => sample_data_token o = sd) (object_ann nu)) /\
  (forall sd anns o, object_anns_dict ds !! sd = Some anns ->
     (o ∈ anns <->
      o ∈ object_ann nu /\ sample_data_token o = sd /\ nondegenerate o)) /\
  (forall sd anns, object_anns_dict ds !! sd = Some anns ->
     anns `sublist_of` object_ann nu) /\
  (forall o, o ∈ object_ann nu -> nondegenerate o ->
     exists anns, object_anns_dict ds !! sample_data_token o = Some anns /\
                  o ∈ anns).
Proof.
  intros Hinit.
  assert (forall sd, object_anns_dict ds !! sd =
            match raw_annotations nu sd with
            | [] => None
            | _ :: _ => Some (valid_annotations nu sd)
            end) as Hl.
  { intros sd. apply (init_index_lookup E nu tr re ds [] sd Hinit). }
  assert (forall sd o, o ∈ valid_annotations nu sd <->
            o ∈ object_ann nu /\ sample_data_token o = sd /\ nondegenerate o)
    as Hv.
  { intros sd o. unfold valid_annotations, raw_annotations.
    rewrite !list_elem_of_filter. tauto. }
  assert (forall sd, raw_annotations nu sd <> [] <->
            Exists (fun o => sample_data_token o = sd) (object_ann nu)) as Hr.
  { intros sd. unfold raw_annotations. rewrite Exists_exists. split.
    - intros Hne. destruct (filter _ (object_ann nu)) as [|o os] eqn:Hf;
        [done|].
      assert (o ∈ filter (fun o => sample_data_token o = sd) (object_ann nu))
        as Ho by (rewrite Hf; left).
      apply list_elem_of_filter in Ho as [? ?]. by exists o.
    - intros (o & Ho & Hsd) Hnil.
      assert (o ∈ filter (fun o => sample_data_token o = sd) (object_ann nu))
        as Hin by (by apply list_elem_of_filter).
      rewrite Hnil in Hin. by apply elem_of_nil in Hin. }
  split; [|split; [|split]].
  - intros sd. rewrite Hl, <- Hr.
    destruct (raw_annotations nu sd); split; intros H; try done;
      by destruct H.
  - intros sd anns o. rewrite Hl.
    destruct (raw_annotations nu sd); [done|]. intros [= <-]. apply Hv.
  - intros sd anns. rewrite Hl.
    destruct (raw_annotations nu sd) eqn:Hraw; [done|]. intros [= <-].
    unfold valid_annotations, raw_annotations.
    etrans; apply sublist_filter.
  - intros o Ho Hnd. exists (valid_annotations nu (sample_data_token o)).
    rewrite Hl. split; [|by apply Hv].
    destruct (raw_annotations nu (sample_data_token o)) eqn:Hraw; [|done].
    exfalso. revert Hraw. apply Hr, Exists_exists. by exists o.
Qed.

Lemma load_image_sample self idx sd image :
  load_image E self idx = Ok (sd, image) ->
  exists i s, i ∈ samples_with_objects self /\
              sample (nuimages self) !! i = Some s /\
              key_camera_token s = sd.
Proof.
  unfold load_image.
  destruct (py_index _ idx) as [i|] eqn:Hi; simpl; [|done].
  destruct (sample (nuimages self) !! i) as [s|] eqn:Hs; simpl; [|done].
  destruct (get_sample_data _ _) as [sdata|]; simpl; [|done].
  destruct (open_rgb E _ _); simpl; [|done].
  intros [= <- <-]. exists i, s. split; [|done]. by eapply py_index_Ok_elem.
Qed.

(** With [remove_empty] set (the default) and annotations in the database,
    every image that can be addressed owns a raw annotation and so has an
    entry in the annotation index, in every state reached by calls: the
    lookup of line 142 cannot raise for it. *)
Theorem getitem_default_has_index_entry nu tr ds idxs idx sd image :
  __init__ E nu tr true = Ok ds ->
  object_ann nu <> [] ->
  load_image E ds idx = Ok (sd, image) ->
  raw_annotations nu sd <> [] /\
  object_anns_dict (after_calls E ds idxs) !! sd
    = Some (valid_annotations nu sd).
Proof.
  intros Hinit Hne Hload.
  assert (raw_annotations nu sd <> []) as Hraw.
  { destruct (load_image_sample ds idx sd image Hload) as (i & s & Hi & Hs & <-).
    apply init_Ok in Hinit as (Hh & Hnu & _ & _ & Hsw & _).
    rewrite Hnu in Hs. rewrite Hh in Hsw.
    assert (negb (bool_decide (length (object_ann nu) = 0%nat)) = true) as Hb
      by (by destruct (object_ann nu)).
    rewrite Hb in Hsw. simpl in Hsw. rewrite Hsw in Hi.
    apply select_samples_elem in Hi as (s' & Hs' & Htok).
    assert (s' = s) as -> by congruence.
    apply sd_tokens_with_objects_spec, Exists_exists in Htok as (o & Ho & Hsd).
    intros Hraw.
    assert (o ∈ raw_annotations nu (key_camera_token s)) as Hin
      by (by apply list_elem_of_filter).
    rewrite Hraw in Hin. by apply elem_of_nil in Hin. }
  split; [done|].
  rewrite (init_index_lookup E nu tr true ds idxs sd Hinit).
  by destruct (raw_annotations nu sd).
Qed.

(** An index outside [-len, len) raises [IndexError] and leaves the dataset
    object as it is; an index inside always resolves to a sample of the
    table, so that only the lookup of the image record or the reading of the
    file can fail; and a negative index addresses the same image as the
    index counted from the start. *)
Theorem getitem_index_bounds nu tr re ds idxs :
  __init__ E nu tr re = Ok ds ->
  (forall idx,
     idx < - Z.of_nat (__len__ ds) \/ Z.of_nat (__len__ ds) <= idx ->
     __getitem__ E (after_calls E ds idxs) idx
       = (Raise IndexError, after_calls E ds idxs)) /\
  (forall idx,
     - Z.of_nat (__len__ ds) <= idx < Z.of_nat (__len__ ds) ->
     exists s, s ∈ sample nu /\
       load_image E ds idx =
       (sample_data ← of_option KeyError
                        (get_sample_data nu (key_camera_token s));
        image ← open_rgb E (dataroot nu) (filename sample_data);
        Ok (key_camera_token s, image))) /\
  (forall idx,
     0 <= idx < Z.of_nat (__len__ ds) ->
     load_image E ds (idx - Z.of_nat (__len__ ds)) = load_image E ds idx).
Proof.
  intros Hinit. pose proof (init_coherent E _ _ _ _ Hinit) as Hc.
  destruct (after_calls_spec E idxs ds Hc) as [Hsame _].
  pose proof (fun i => samples_with_objects_lookup E nu tr re ds i Hinit)
    as Hvalid.
  apply init_Ok in Hinit as (_ & Hnu & Hroot & _).
  split; [|split].
  - intros idx Hout. unfold __getitem__.
    rewrite <- (load_image_same E ds _ idx Hsame). unfold load_image.
    by rewrite (py_index_out_of_range _ idx Hout).
  - intros idx Hin. unfold load_image.
    destruct (py_index_in_range (samples_with_objects ds) idx Hin)
      as (i & -> & Hi); simpl.
    destruct (Hvalid i Hi) as [s Hs]. exists s. rewrite Hnu, Hs, Hroot; simpl.
    split; [by eapply list_elem_of_lookup_2|done].
  - intros idx Hin. unfold load_image, __len__.
    by rewrite py_index_negative.
Qed.

(** [get_height_and_width] resolves an index as [__getitem__] does and
    reads the image record only: in range it returns the recorded height and
    width of the sample's image or raises the [KeyError] of a missing
    record, out of range it raises [IndexError]; whenever [__getitem__]
    could load the image, it returns the dimensions recorded for that same
    image. *)
Theorem get_height_and_width_spec nu tr re ds :
  __init__ E nu tr re = Ok ds ->
  (forall idx,
     idx < - Z.of_nat (__len__ ds) \/ Z.of_nat (__len__ ds) <= idx ->
     get_height_and_width ds idx = Raise IndexError) /\
  (forall idx,
     - Z.of_nat (__len__ ds) <= idx < Z.of_nat (__len__ ds) ->
     exists s, s ∈ sample nu /\
       get_height_and_width ds idx =
       (sample_data ← of_option KeyError
                        (get_sample_data nu (key_camera_token s));
        Ok (height sample_data, width sample_data))) /\
  (forall idx sd image,
     load_image E ds idx = Ok (sd, image) ->
     exists sample_data,
       get_sample_data nu sd = Some sample_data /\
       get_height_and_width ds idx
         = Ok (height sample_data, width sample_data)).
Proof.
  intros Hinit.
  pose proof (fun i => samples_with_objects_lookup E nu tr re ds i Hinit)
    as Hvalid.
  apply init_Ok in Hinit as (_ & Hnu & Hroot & _).
  split; [|split].
  - intros idx Hout. unfold get_height_and_width.
    by rewrite (py_index_out_of_range _ idx Hout).
  - intros idx Hin. unfold get_height_and_width.
    destruct (py_index_in_range (samples_with_objects ds) idx Hin)
      as (i & -> & Hi); simpl.
    destruct (Hvalid i Hi) as [s Hs]. exists s. rewrite Hnu, Hs; simpl.
    split; [by eapply list_elem_of_lookup_2|done].
  - intros idx sd image. unfold load_image, get_height_and_width.
    destruct (py_index _ idx) as [i|]; simpl; [|done].
    destruct (sample (nuimages ds) !! i) as [s|]; simpl; [|done].
    rewrite Hnu.
    destruct (get_sample_data nu (key_camera_token s)) as [sdata|] eqn:Hsd;
      simpl; [|done].
    destruct (open_rgb E _ _); simpl; [|done].
    intros [= <- <-]. by exists sdata.
Qed.
End IndexProperties.

(** ** The instance layer and the masks extracted from it *)

Lemma pixel_eq_scalar a v p :
  (p < length (nd_data a))%nat ->
  pixel (eq_scalar a v) p = if decide (pixel a p = v) then 1 else 0.
Proof.
  intros Hp. apply lookup_lt_is_Some_2 in Hp as [x Hx].
  unfold pixel, eq_scalar; simpl. rewrite list_lookup_fmap, Hx. done.
Qed.

Section LayerProperties.
Context (E : Env) (nu : NuImages).

#[local] Arguments draw_instance : simpl never.

Lemma draw_all_drawable s : forall k L L',
  for_each (draw_instance E nu) (enumerate k s) L = Ok L' ->
  Forall (drawable E nu (nd_shape L)) s.
Proof.
  induction s as [|a s IH]; intros k L L'; simpl; [constructor|].
  destruct (draw_instance E nu L (k, a)) as [L1|] eqn:Hd; simpl; [|done].
  intros Hrest. pose proof Hd as Hd'.
  apply draw_instance_Ok in Hd' as (Hs1 & _).
  constructor.
  - rewrite draw_instance_unfold in Hd. unfold drawable.
    destruct (get_category nu (category_token a)); simpl in Hd; [|done].
    split; [done|]. intros enc Henc. rewrite Henc in Hd.
    destruct (mask_decode E enc) as [m|]; simpl in Hd; [|done].
    exists m. split; [done|]. unfold assign_where_one in Hd.
    by case_decide.
  - rewrite <- Hs1. by eapply IH.
Qed.

(** The rasterizer returns a layer exactly when it can draw every
    annotation: each category token resolves (also for an annotation without
    a mask) and each mask that is present decodes to an array of the image's
    height and width.  The layer then has the image's height and width. *)
Theorem get_instance_mask_succeeds_iff image anns :
  match get_instance_mask E nu image anns with
  | Ok layer =>
      Forall (drawable E nu ((size image).2, (size image).1)) anns /\
      nd_shape layer = ((size image).2, (size image).1) /\
      length (nd_data layer) = ((size image).2 * (size image).1)%nat
  | Raise _ =>
      ~ Forall (drawable E nu ((size image).2, (size image).1)) anns
  end.
Proof.
  destruct (get_instance_mask E nu image anns) as [layer|e] eqn:Hl.
  - split; [|by apply (get_instance_mask_shape E nu image anns)].
    rewrite get_instance_mask_unfold in Hl.
    apply draw_all_drawable in Hl. by rewrite sorted_perm in Hl.
  - intros Hall.
    destruct (get_instance_mask_total E nu image anns Hall) as [layer Hl'].
    congruence.
Qed.

Lemma layer_pixel image anns layer p :
  get_instance_mask E nu image anns = Ok layer ->
  (p < (size image).2 * (size image).1)%nat ->
  (exists j, last_cover E (sorted token anns) j p /\
             pixel layer p = Z.of_nat j + 1) \/
  ((forall a, a ∈ anns -> covers E a p = false) /\ pixel layer p = 0).
Proof.
  intros Hl Hp. rewrite get_instance_mask_unfold in Hl.
  apply draw_all_pixel in Hl as (_ & _ & Hpix).
  destruct (Hpix p) as [(j & b & Hj & Hb & Hlast & Hv)|[Hnone Hv]].
  - unfold zeros; simpl. by rewrite length_replicate.
  - left. exists j. split; [split; [by exists b|done]|]. rewrite Hv. lia.
  - right. split; [|by rewrite Hv, pixel_zeros].
    intros a Ha. rewrite <- (sorted_perm token anns) in Ha.
    apply list_elem_of_lookup in Ha as [j Hj]. by eapply Hnone.
Qed.

Lemma last_cover_unique s j1 j2 p :
  last_cover E s j1 p -> last_cover E s j2 p -> j1 = j2.
Proof.
  intros [(a1 & Ha1 & Hc1) Hl1] [(a2 & Ha2 & Hc2) Hl2].
  destruct (Nat.lt_trichotomy j1 j2) as [Hlt|[Heq|Hgt]]; [|done|].
  - rewrite (Hl1 j2 a2 Hlt Ha2) in Hc2. done.
  - rewrite (Hl2 j1 a1 Hgt Ha1) in Hc1. done.
Qed.

(** The values of the layer: every pixel holds 0 or the 1-based position,
    in token order, of an annotation, so a value between 0 and the number of
    annotations; a pixel of the image holds 0 exactly when no annotation's
    decoded mask covers it. *)
Theorem get_instance_mask_values image anns layer :
  get_instance_mask E nu image anns = Ok layer ->
  (forall p, 0 <= pixel layer p <= Z.of_nat (length anns)) /\
  (forall p, (p < (size image).2 * (size image).1)%nat ->
     (pixel layer p = 0 <-> forall a, a ∈ anns -> covers E a p = false)).
Proof.
  intros Hl. split.
  - intros p. destruct (decide (p < (size image).2 * (size image).1)%nat)
      as [Hp|Hp].
    + destruct (layer_pixel image anns layer p Hl Hp)
        as [(j & [(a & Ha & _) _] & ->)|[_ ->]]; [|lia].
      apply lookup_lt_Some in Ha. rewrite sorted_length in Ha. lia.
    + apply get_instance_mask_shape in Hl as [_ Hlen].
      rewrite pixel_outside by lia. lia.
  - intros p Hp.
    destruct (layer_pixel image anns layer p Hl Hp)
      as [(j & [(a & Ha & Hc) _] & Hv)|[Hnone Hv]].
    + split; [lia|]. intros Hnone.
      assert (a ∈ anns) as Hin.
      { rewrite <- (sorted_perm token anns). by eapply list_elem_of_lookup_2. }
      rewrite (Hnone a Hin) in Hc. done.
    + by split.
Qed.

Lemma layer_pixel_iff image anns layer j p :
  get_instance_mask E nu image anns = Ok layer ->
  (p < (size image).2 * (size image).1)%nat ->
  (pixel layer p = Z.of_nat j + 1 <-> last_cover E (sorted token anns) j p).
Proof.
  intros Hl Hp.
  destruct (layer_pixel image anns layer p Hl Hp)
    as [(j' & Hlast & Hv)|[Hnone Hv]]; rewrite Hv.
  - split.
    + intros Hj. by assert (j' = j) as -> by lia.
    + intros Hlast'. by rewrite (last_cover_unique _ _ _ _ Hlast Hlast').
  - split; [lia|]. intros [(a & Ha & Hc) _].
    assert (a ∈ anns) as Hin.
    { rewrite <- (sorted_perm token anns). by eapply list_elem_of_lookup_2. }
    rewrite (Hnone a Hin) in Hc. done.
Qed.

(** The mask extracted for position [j] with [layer == j + 1] marks exactly
    the pixels that the annotation at position [j] of the token order covers
    and no annotation after it covers; its entries are 0 and 1. *)
Theorem instance_mask_extraction image anns layer j p :
  get_instance_mask E nu image anns = Ok layer ->
  (p < (size image).2 * (size image).1)%nat ->
  (pixel (eq_scalar layer (Z.of_nat j + 1)) p = 1 <->
   last_cover E (sorted token anns) j p) /\
  (pixel (eq_scalar layer (Z.of_nat j + 1)) p = 1 \/
   pixel (eq_scalar layer (Z.of_nat j + 1)) p = 0).
Proof.
  intros Hl Hp.
  pose proof (get_instance_mask_shape E nu image anns layer Hl) as [_ Hlen].
  rewrite pixel_eq_scalar by lia.
  rewrite <- (layer_pixel_iff image anns layer j p Hl Hp).
  case_decide; [by split; [|left]|]. by split; [|right].
Qed.

(** When the annotations are listed in token order and their decoded masks
    are pairwise disjoint, the mask extracted for position [i] of the list is
    the decoded mask of the annotation at position [i]. *)
Theorem instance_mask_of_sorted_disjoint image anns layer :
  get_instance_mask E nu image anns = Ok layer ->
  StronglySorted (key_le token) anns ->
  (forall i j a b p, i <> j -> anns !! i = Some a -> anns !! j = Some b ->
                     covers E a p = true -> covers E b p = false) ->
  forall i a p,
    anns !! i = Some a ->
    (p < (size image).2 * (size image).1)%nat ->
    pixel (eq_scalar layer (Z.of_nat i + 1)) p
      = if covers E a p then 1 else 0.
Proof.
  intros Hl Hsorted Hdisj i a p Ha Hp.
  pose proof (get_instance_mask_shape E nu image anns layer Hl) as [_ Hlen].
  pose proof (layer_pixel_iff image anns layer i p Hl Hp) as Hiff.
  rewrite (sorted_id token anns Hsorted) in Hiff.
  rewrite pixel_eq_scalar by lia.
  destruct (covers E a p) eqn:Hc.
  - rewrite decide_True; [done|]. apply Hiff. split; [by exists a|].
    intros j' c Hlt Hc'. apply (Hdisj i j' a c p); [lia|done..].
  - rewrite decide_False; [done|]. intros Hv.
    apply Hiff in Hv as [(a' & Ha' & Hc') _]. congruence.
Qed.
End LayerProperties.

(** ** The contents of targets *)

Lemma kept_of_labels ct2l l : forall k,
  Some <$> (snd <$> kept_of ct2l k l) = label_of ct2l <$> labelled ct2l l.
Proof.
  unfold labelled.
  induction l as [|a l IH]; intros k; simpl; [done|]. rewrite filter_cons.
  destruct (decide (is_Some (label_of ct2l a))) as [[lbl Hl]|Hn].
  - rewrite Hl. rewrite !fmap_cons, Hl. simpl. f_equal. apply IH.
  - destruct (label_of ct2l a) as [lbl|] eqn:Hl; [by destruct Hn|]. apply IH.
Qed.

Lemma kept_of_boxes ct2l l : forall pre,
  mapM (fun i : nat => of_option IndexError (bbox <$> (pre ++ l) !! i))
       (fst <$> kept_of ct2l (length pre) l)
  = Ok (bbox <$> labelled ct2l l).
Proof.
  unfold labelled.
  induction l as [|a l IH]; intros pre; [done|].
  assert (S (length pre) = length (pre ++ [a])) as Hlen
    by (rewrite length_app; simpl; lia).
  specialize (IH (pre ++ [a])). rewrite <- app_assoc, <- Hlen in IH.
  cbn [app] in IH. cbn [kept_of]. rewrite filter_cons.
  destruct (decide (is_Some (label_of ct2l a))) as [[lbl Hl]|Hn].
  - rewrite Hl. rewrite !fmap_cons. cbn [mapM fst].
    rewrite list_lookup_middle by done. simpl. by rewrite IH.
  - destruct (label_of ct2l a) as [lbl|] eqn:Hl; [by destruct Hn|]. apply IH.
Qed.

Lemma length_bind_const {A B} (f : A -> list B) (l : list A) (m : nat) :
  (forall x, x ∈ l -> length (f x) = m) ->
  length (l ≫= f) = (length l * m)%nat.
Proof.
  induction l as [|x l IH]; intros Hf; [done|].
  rewrite bind_cons, length_app, (Hf x) by left. simpl.
  rewrite IH; [done|]. intros y Hy. apply Hf. by right.
Qed.

Section TargetContents.
Context (E : Env).

(** The target computed for an index entry, in terms of the annotations of
    the entry that have a label. *)
Lemma target_of_contents self anns image idx t :
  target_of E self anns image idx = Ok t ->
  let ct2l := _cat_token_to_label self in
  let n := length (labelled ct2l anns) in
  boxes t = tensor_of_boxes (bbox <$> labelled ct2l anns) /\
  dt (labels t) = int64 /\ shape (labels t) = [n] /\
  Some <$> data (labels t) = label_of ct2l <$> labelled ct2l anns /\
  dt (masks t) = uint8 /\
  shape (masks t) = [n; (size image).2; (size image).1] /\
  length (data (masks t)) = (n * ((size image).2 * (size image).1))%nat /\
  shape (area t) = [n] /\ length (data (area t)) = n /\
  shape (iscrowd t) = [if decide (n = 0%nat) then 0%nat else length anns] /\
  Forall (fun x => x = 0) (data (iscrowd t)) /\
  image_id t = {| dt := int64; shape := [1%nat]; data := [idx] |}.
Proof.
  intros Ht ct2l n. subst n. revert Ht.
  unfold target_of. rewrite compute_kept_eq. cbn [fst snd]. fold ct2l.
  pose proof (kept_of_labels ct2l anns 0) as Hlbl.
  pose proof (kept_of_boxes ct2l anns []) as Hbox. cbn [app length] in Hbox.
  assert (length (fst <$> kept_of ct2l 0 anns) = length (labelled ct2l anns))
    as Hlen.
  { apply (f_equal length) in Hlbl. by rewrite !length_fmap in *. }
  generalize dependent (snd <$> kept_of ct2l 0 anns). intros kept_labels Hlbl.
  generalize dependent (fst <$> kept_of ct2l 0 anns).
  intros kept_indices Hbox Hlen.
  assert (length kept_labels = length (labelled ct2l anns)) as Hlen2.
  { apply (f_equal length) in Hlbl. by rewrite !length_fmap in Hlbl. }
  destruct kept_indices as [|i0 rest].
  - intros [= <-]. simpl in Hlen. rewrite <- Hlen in *.
    destruct (labelled ct2l anns) as [|? ?] eqn:Hlab; [|done].
    destruct kept_labels; [|done].
    unfold empty_target. destruct (size image) as [w h]; simpl.
    repeat split; by constructor.
  - rewrite Hbox. cbn [mbind result_bind].
    destruct (get_instance_mask E (nuimages self) image anns) as [layer|]
      eqn:Hlayer; [|done].
    intros [= <-].
    pose proof (get_instance_mask_shape E _ _ _ _ Hlayer) as [Hsh Hpix].
    unfold full_target, shape0, tensor_of_boxes. cbn [boxes labels masks
      image_id area iscrowd dt shape data hd].
    rewrite !length_fmap, Hsh, Hlen, Hlen2. cbn [fst snd].
    assert (length (labelled ct2l anns) <> 0%nat) as Hnz
      by (rewrite <- Hlen; done).
    rewrite !decide_False by done.
    split; [done|]. split; [done|]. split; [done|]. split; [done|].
    split; [done|]. split; [done|]. split.
    { rewrite (length_bind_const _ _ ((size image).2 * (size image).1)).
      - by rewrite ?length_fmap, ?Hlen.
      - intros m Hm. apply list_elem_of_fmap in Hm as (i & -> & _).
        unfold eq_scalar; simpl. by rewrite length_fmap. }
    split; [done|]. split; [by simpl; rewrite !length_fmap|].
    split; [done|]. split; [|done].
    unfold t_zeros; simpl. apply Forall_forall. intros x Hx.
    by apply elem_of_replicate in Hx as [-> _].
Qed.

(** What a returned item is made of: the image loaded for the index, and
    the target computed from the image's index entry, passed through the
    transform hook when there is one. *)
Lemma getitem_Ok_target nu tr re ds idxs idx r_image r_target :
  __init__ E nu tr re = Ok ds ->
  (__getitem__ E (after_calls E ds idxs) idx).1
    = Ok (r_image, Some r_target) ->
  exists sd image anns t,
    load_image E ds idx = Ok (sd, image) /\
    object_anns_dict ds !! sd = Some anns /\
    target_of E ds anns image idx = Ok t /\
    apply_transforms tr image t = Ok (r_image, Some r_target).
Proof.
  intros Hinit.
  destruct (getitem_after_calls E nu tr re ds idxs idx Hinit) as [-> _].
  unfold item_of.
  destruct (load_image E ds idx) as [[sd image]|] eqn:Hload; simpl; [|done].
  destruct (has_ann ds); simpl; [|done].
  destruct (object_anns_dict ds !! sd) as [anns|] eqn:Hd; simpl; [|done].
  destruct (target_of E ds anns image idx) as [t|] eqn:Ht; simpl; [|done].
  apply init_Ok in Hinit as (_ & _ & _ & -> & _).
  intros Hres. by exists sd, image, anns, t.
Qed.

(** Without a transform, boxes and labels of a returned target are aligned:
    row [k] of the boxes is the box, and entry [k] of the labels is the
    reduced label, of the [k]-th annotation with a mapped category among the
    image's annotations in the index, in index order. *)
Theorem getitem_boxes_labels_aligned nu re ds idxs idx image t :
  __init__ E nu None re = Ok ds ->
  (__getitem__ E (after_calls E ds idxs) idx).1 = Ok (image, Some t) ->
  exists sd anns,
    load_image E ds idx = Ok (sd, image) /\
    object_anns_dict ds !! sd = Some anns /\
    boxes t = tensor_of_boxes
                (bbox <$> labelled (_cat_token_to_label ds) anns) /\
    Some <$> data (labels t)
      = label_of (_cat_token_to_label ds)
          <$> labelled (_cat_token_to_label ds) anns.
Proof.
  intros Hinit Hres.
  destruct (getitem_Ok_target nu None re ds idxs idx image t Hinit Hres)
    as (sd & image' & anns & t' & Hload & Hd & Ht & Happ).
  simpl in Happ. injection Happ as <- <-.
  exists sd, anns. split; [done|]. split; [done|].
  by destruct (target_of_contents ds anns image' idx t' Ht) as (? & _ & _ & ? & _).
Qed.

(** Without a transform, the tensors of a returned target have these
    shapes, with [n] the number of the image's annotations in the index that
    have a mapped category: boxes (n, 4), labels (n), masks (n, H, W) for the
    height and width of the image read, with n * H * W entries, area (n);
    iscrowd is all zeros, of length 0 when n is 0 and else of the length of
    the image's index entry; image_id holds the index as it was given. *)
Theorem getitem_target_shapes nu re ds idxs idx image t :
  __init__ E nu None re = Ok ds ->
  (__getitem__ E (after_calls E ds idxs) idx).1 = Ok (image, Some t) ->
  exists sd anns,
    load_image E ds idx = Ok (sd, image) /\
    object_anns_dict ds !! sd = Some anns /\
    let n := length (labelled (_cat_token_to_label ds) anns) in
    shape (boxes t) = [n; 4%nat] /\
    length (data (boxes t)) = (n * 4)%nat /\
    shape (labels t) = [n] /\ length (data (labels t)) = n /\
    shape (masks t) = [n; (size image).2; (size image).1] /\
    length (data (masks t)) = (n * ((size image).2 * (size image).1))%nat /\
    shape (area t) = [n] /\ length (data (area t)) = n /\
    shape (iscrowd t) = [if decide (n = 0%nat) then 0%nat else length anns] /\
    Forall (fun x => x = 0) (data (iscrowd t)) /\
    data (image_id t) = [idx].
Proof.
  intros Hinit Hres.
  destruct (getitem_Ok_target nu None re ds idxs idx image t Hinit Hres)
    as (sd & image' & anns & t' & Hload & Hd & Ht & Happ).
  simpl in Happ. injection Happ as <- <-.
  exists sd, anns. split; [done|]. split; [done|].
  destruct (target_of_contents ds anns image' idx t' Ht)
    as (Hb & _ & Hls & Hl & _ & Hms & Hml & Has & Hal & Hcs & Hc & Hid).
  rewrite Hb, Hid. unfold tensor_of_boxes; simpl. rewrite length_fmap.
  split; [done|]. split.
  { rewrite (length_bind_const _ _ 4); [by rewrite length_fmap|done]. }
  split; [done|]. split.
  { apply (f_equal length) in Hl. by rewrite !length_fmap in Hl. }
  done.
Qed.

(** The transform hook is applied last and to nothing else: a dataset with
    a hook returns what the hook returns, or raises what the hook raises, on
    the item that the same dataset without a hook returns; it raises what
    that one raises, and passes the item of a test split on untouched. *)
Theorem getitem_transform_applied_last nu f re ds_f ds idxs_f idxs idx :
  __init__ E nu (Some f) re = Ok ds_f ->
  __init__ E nu None re = Ok ds ->
  (__getitem__ E (after_calls E ds_f idxs_f) idx).1 =
  match (__getitem__ E (after_calls E ds idxs) idx).1 with
  | Ok item => transformed f item
  | Raise e => Raise e
  end.
Proof.
  intros Hf Hn.
  destruct (getitem_after_calls E nu _ re ds_f idxs_f idx Hf) as [-> _].
  destruct (getitem_after_calls E nu _ re ds idxs idx Hn) as [-> _].
  apply init_Ok in Hf as (Hh1 & Hn1 & Hr1 & Ht1 & Hs1 & Hd1 & Hc1 & _).
  apply init_Ok in Hn as (Hh2 & Hn2 & Hr2 & Ht2 & Hs2 & Hd2 & Hc2 & _).
  assert (_cat_token_to_label ds_f = _cat_token_to_label ds) as Hct
    by congruence.
  assert (load_image E ds_f idx = load_image E ds idx) as Hload.
  { unfold load_image. rewrite Hn1, Hn2, Hr1, Hr2, Hs1, Hs2, Hh1, Hh2. done. }
  assert (forall anns image, target_of E ds_f anns image idx
                             = target_of E ds anns image idx) as Htar.
  { intros anns image. unfold target_of. by rewrite Hct, Hn1, Hn2. }
  unfold item_of. rewrite Hload.
  destruct (load_image E ds idx) as [[sd image]|]; simpl; [|done].
  rewrite Hh1, Hh2.
  destruct (bool_decide (length (object_ann nu) = 0%nat)); simpl; [done|].
  rewrite Hd1, Hd2.
  destruct (build_object_anns_dict (object_ann nu) !! sd) as [anns|]; simpl;
    [|done].
  rewrite Htar. destruct (target_of E ds anns image idx) as [t|]; simpl;
    [|done].
  by rewrite Ht1, Ht2.
Qed.
End TargetContents.

(** ** The further properties on the demo world *)

Lemma getitem_cache_transparent_witness :
  exists ds,
    __init__ demo_env db_mixed None true = Ok ds /\
    (__getitem__ demo_env (after_calls demo_env ds [0; 0]) 0).1
      = (__getitem__ demo_env ds 0).1 /\
    (__getitem__ demo_env
       (__getitem__ demo_env (after_calls demo_env ds [0; 0]) 0).2 0).1
      = (__getitem__ demo_env (after_calls demo_env ds [0; 0]) 0).1.
Proof.
  eexists. split; [reflexivity|].
  apply (getitem_cache_transparent demo_env db_mixed None true _ [0; 0] 0).
  reflexivity.
Defined.

Lemma getitem_raise_stores_no_layer_witness :
  exists ds,
    __init__ demo_env db_bad_mask None true = Ok ds /\
    (__getitem__ demo_env ds 0).1 = Raise IndexError /\
    (_inst_mask_cache (__getitem__ demo_env ds 0).2 = _inst_mask_cache ds \/
     exists f image target,
       transforms ds = Some f /\ f image target = Raise IndexError) /\
    (transforms ds = None ->
     _inst_mask_cache (__getitem__ demo_env ds 0).2 = _inst_mask_cache ds).
Proof.
  eexists. split; [reflexivity|]. split; [by vm_compute|].
  apply (getitem_raise_stores_no_layer demo_env _ 0 IndexError).
  by vm_compute.
Defined.

(** The exception is real: when the hook raises, the layer drawn for the
    image has already been stored. *)
Example getitem_failing_hook_keeps_layer :
  exists ds,
    __init__ demo_env db_mixed (Some failing_transform) true = Ok ds /\
    (__getitem__ demo_env ds 0).1 = Raise (OtherError "transform") /\
    _inst_mask_cache ds !! "sd-0"%string = None /\
    _inst_mask_cache (__getitem__ demo_env ds 0).2 !! "sd-0"%string
      = Some {| nd_shape := (1%nat, 2%nat); nd_data := [1; 2] |}.
Proof.
  eexists. split; [reflexivity|]. repeat split; by vm_compute.
Qed.

Lemma cat_token_to_label_lookup_witness :
  exists ds,
    __init__ demo_env db_mixed None true = Ok ds /\
    (forall cat, cat ∈ category db_mixed ->
       _cat_token_to_label ds !! c_token cat
         = Some (reduced_label demo_env cat)) /\
    (forall tok, tok ∉ c_token <$> category db_mixed ->
       _cat_token_to_label ds !! tok = None) /\
    (forall a cat, cat ∈ category db_mixed -> category_token a = c_token cat ->
       label_of (_cat_token_to_label ds) a = reduced_label demo_env cat) /\
    (forall a, category_token a ∉ c_token <$> category db_mixed ->
       label_of (_cat_token_to_label ds) a = None).
Proof.
  eexists. split; [reflexivity|].
  apply (cat_token_to_label_lookup demo_env db_mixed None true);
    [reflexivity|].
  apply (bool_decide_unpack _). by vm_compute.
Defined.

Lemma category_ids_round_trip_witness :
  exists ds,
    __init__ demo_env db_mixed None true = Ok ds /\
    category_names ds = "background"%string :: (name <$> category db_mixed) /\
    length (category_names ds) = num_classes db_mixed /\
    (forall n id, _category_name_to_id ds !! n = Some id ->
       (1 <= id < num_classes db_mixed)%nat /\
       category_names ds !! id = Some n) /\
    (forall cat, cat ∈ category db_mixed ->
       is_Some (_category_name_to_id ds !! name cat)).
Proof.
  eexists. split; [reflexivity|].
  apply (category_ids_round_trip demo_env db_mixed None true). reflexivity.
Defined.

Lemma samples_with_objects_valid_witness :
  exists ds,
    __init__ demo_env db_scenario_a None true = Ok ds /\
    samples_with_objects ds
      `sublist_of` seq 0 (length (sample db_scenario_a)) /\
    NoDup (samples_with_objects ds) /\
    (forall i, i ∈ samples_with_objects ds ->
               is_Some (sample db_scenario_a !! i)) /\
    (__len__ ds <= length (sample db_scenario_a))%nat.
Proof.
  eexists. split; [reflexivity|].
  apply (samples_with_objects_valid demo_env db_scenario_a None true).
  reflexivity.
Defined.

Lemma index_partitions_annotations_witness :
  exists ds,
    __init__ demo_env db_scenario_b None true = Ok ds /\
    (forall sd, is_Some (object_anns_dict ds !! sd) <->
                Exists (fun o => sample_data_token o = sd)
                       (object_ann db_scenario_b)) /\
    (forall sd anns o, object_anns_dict ds !! sd = Some anns ->
       (o ∈ anns <->
        o ∈ object_ann db_scenario_b /\ sample_data_token o = sd /\
        nondegenerate o)) /\
    (forall sd anns, object_anns_dict ds !! sd = Some anns ->
       anns `sublist_of` object_ann db_scenario_b) /\
    (forall o, o ∈ object_ann db_scenario_b -> nondegenerate o ->
       exists anns, object_anns_dict ds !! sample_data_token o = Some anns /\
                    o ∈ anns).
Proof.
  eexists. split; [reflexivity|].
  apply (index_partitions_annotations demo_env db_scenario_b None true).
  reflexivity.
Defined.

Lemma getitem_default_has_index_entry_witness :
  exists ds,
    __init__ demo_env db_scenario_a None true = Ok ds /\
    raw_annotations db_scenario_a "sd-0" <> [] /\
    object_anns_dict (after_calls demo_env ds [0; 1]) !! "sd-0"%string
      = Some (valid_annotations db_scenario_a "sd-0").
Proof.
  eexists. split; [reflexivity|].
  apply (getitem_default_has_index_entry demo_env db_scenario_a None _
           [0; 1] 0 "sd-0" demo_image).
  - reflexivity.
  - discriminate.
  - by vm_compute.
Defined.

Lemma getitem_index_bounds_witness :
  exists ds,
    __init__ demo_env db_scenario_a None true = Ok ds /\
    (forall idx,
       idx < - Z.of_nat (__len__ ds) \/ Z.of_nat (__len__ ds) <= idx ->
       __getitem__ demo_env (after_calls demo_env ds [0]) idx
         = (Raise IndexError, after_calls demo_env ds [0])) /\
    (forall idx,
       - Z.of_nat (__len__ ds) <= idx < Z.of_nat (__len__ ds) ->
       exists s, s ∈ sample db_scenario_a /\
         load_image demo_env ds idx =
         (sample_data ← of_option KeyError
                          (get_sample_data db_scenario_a (key_camera_token s));
          image ← open_rgb demo_env (dataroot db_scenario_a)
                    (filename sample_data);
          Ok (key_camera_token s, image))) /\
    (forall idx,
       0 <= idx < Z.of_nat (__len__ ds) ->
       load_image demo_env ds (idx - Z.of_nat (__len__ ds))
         = load_image demo_env ds idx).
Proof.
  eexists. split; [reflexivity|].
  apply (getitem_index_bounds demo_env db_scenario_a None true _ [0]).
  reflexivity.
Defined.

Lemma get_height_and_width_spec_witness :
  exists ds,
    __init__ demo_env db_scenario_a None true = Ok ds /\
    (forall idx,
       idx < - Z.of_nat (__len__ ds) \/ Z.of_nat (__len__ ds) <= idx ->
       get_height_and_width ds idx = Raise IndexError) /\
    (forall idx,
       - Z.of_nat (__len__ ds) <= idx < Z.of_nat (__len__ ds) ->
       exists s, s ∈ sample db_scenario_a /\
         get_height_and_width ds idx =
         (sample_data ← of_option KeyError
                          (get_sample_data db_scenario_a (key_camera_token s));
          Ok (height sample_data, width sample_data))) /\
    (forall idx sd image,
       load_image demo_env ds idx = Ok (sd, image) ->
       exists sample_data,
         get_sample_data db_scenario_a sd = Some sample_data /\
         get_height_and_width ds idx
           = Ok (height sample_data, width sample_data)).
Proof.
  eexists. split; [reflexivity|].
  apply (get_height_and_width_spec demo_env db_scenario_a None true).
  reflexivity.
Defined.

(** On the demo image the recorded size is that of the file. *)
Example get_height_and_width_example :
  exists ds,
    __init__ demo_env db_scenario_a None true = Ok ds /\
    get_height_and_width ds 1 = Ok (1%nat, 2%nat) /\
    get_height_and_width ds (-1) = Ok (1%nat, 2%nat) /\
    get_height_and_width ds 2 = Raise IndexError.
Proof. eexists. split; [reflexivity|]. repeat split; by vm_compute. Qed.

Lemma get_instance_mask_values_witness :
  (forall p,
     0 <= pixel {| nd_shape := (1%nat, 2%nat); nd_data := [3; 0] |} p
       <= Z.of_nat (length [over_3; bare; over_1])) /\
  (forall p, (p < (size demo_image).2 * (size demo_image).1)%nat ->
     (pixel {| nd_shape := (1%nat, 2%nat); nd_data := [3; 0] |} p = 0 <->
      forall a, a ∈ [over_3; bare; over_1] -> covers demo_env a p = false)).
Proof.
  apply (get_instance_mask_values demo_env demo_nu demo_image
           [over_3; bare; over_1]).
  by vm_compute.
Defined.

Lemma instance_mask_extraction_witness :
  (pixel (eq_scalar {| nd_shape := (1%nat, 2%nat); nd_data := [3; 0] |}
            (Z.of_nat 2 + 1)) 0 = 1 <->
   last_cover demo_env (sorted token [over_3; bare; over_1]) 2 0) /\
  (pixel (eq_scalar {| nd_shape := (1%nat, 2%nat); nd_data := [3; 0] |}
            (Z.of_nat 2 + 1)) 0 = 1 \/
   pixel (eq_scalar {| nd_shape := (1%nat, 2%nat); nd_data := [3; 0] |}
            (Z.of_nat 2 + 1)) 0 = 0).
Proof.
  apply (instance_mask_extraction demo_env demo_nu demo_image
           [over_3; bare; over_1]).
  - by vm_compute.
  - simpl. lia.
Defined.

Lemma instance_mask_of_sorted_disjoint_witness :
  pixel (eq_scalar {| nd_shape := (1%nat, 2%nat); nd_data := [2; 1] |}
           (Z.of_nat 1 + 1)) 0
    = if covers demo_env ann_b 0 then 1 else 0.
Proof.
  apply (instance_mask_of_sorted_disjoint demo_env demo_nu demo_image
           [ann_a; ann_b]).
  - by vm_compute.
  - repeat constructor; by vm_compute.
  - intros i j a b p Hne Ha Hb.
    destruct i as [|[|i]]; destruct j as [|[|j]]; try done;
      injection Ha as <-; injection Hb as <-;
      destruct p as [|[|p]]; by vm_compute.
  - reflexivity.
  - simpl. lia.
Defined.

Lemma getitem_boxes_labels_aligned_witness :
  exists ds t,
    __init__ demo_env db_mixed None true = Ok ds /\
    exists sd anns,
      load_image demo_env ds 0 = Ok (sd, demo_image) /\
      object_anns_dict ds !! sd = Some anns /\
      boxes t = tensor_of_boxes
                  (bbox <$> labelled (_cat_token_to_label ds) anns) /\
      Some <$> data (labels t)
        = label_of (_cat_token_to_label ds)
            <$> labelled (_cat_token_to_label ds) anns.
Proof.
  eexists. eexists. split; [reflexivity|].
  eapply (getitem_boxes_labels_aligned demo_env db_mixed true _ [0] 0).
  - reflexivity.
  - vm_compute. reflexivity.
Defined.

Lemma getitem_target_shapes_witness :
  exists ds t,
    __init__ demo_env db_mixed None true = Ok ds /\
    exists sd anns,
      load_image demo_env ds 0 = Ok (sd, demo_image) /\
      object_anns_dict ds !! sd = Some anns /\
      let n := length (labelled (_cat_token_to_label ds) anns) in
      shape (boxes t) = [n; 4%nat] /\
      length (data (boxes t)) = (n * 4)%nat /\
      shape (labels t) = [n] /\ length (data (labels t)) = n /\
      shape (masks t) = [n; (size demo_image).2; (size demo_image).1] /\
      length (data (masks t))
        = (n * ((size demo_image).2 * (size demo_image).1))%nat /\
      shape (area t) = [n] /\ length (data (area t)) = n /\
      shape (iscrowd t)
        = [if decide (n = 0%nat) then 0%nat else length anns] /\
      Forall (fun x => x = 0) (data (iscrowd t)) /\
      data (image_id t) = [0].
Proof.
  eexists. eexists. split; [reflexivity|].
  eapply (getitem_target_shapes demo_env db_mixed true _ [0] 0).
  - reflexivity.
  - vm_compute. reflexivity.
Defined.

Lemma getitem_transform_applied_last_witness :
  exists ds_f ds,
    __init__ demo_env db_mixed (Some demo_transform) true = Ok ds_f /\
    __init__ demo_env db_mixed None true = Ok ds /\
    (__getitem__ demo_env (after_calls demo_env ds_f [0]) 0).1 =
    match (__getitem__ demo_env (after_calls demo_env ds []) 0).1 with
    | Ok item => transformed demo_transform item
    | Raise e => Raise e
    end.
Proof.
  eexists. eexists. split; [reflexivity|]. split; [reflexivity|].
  apply (getitem_transform_applied_last demo_env db_mixed demo_transform true
           _ _ [0] [] 0); reflexivity.
Defined.

Lemma getitem_no_raw_annotation_witness :
  exists ds,
    __init__ demo_env db_unannotated None false = Ok ds /\
    (__getitem__ demo_env (after_calls demo_env ds [0; 1]) 1).1
      = Raise KeyError.
Proof.
  eexists. split; [reflexivity|].
  apply (getitem_no_raw_annotation demo_env db_unannotated None false _
           [0; 1] 1 "sd-1" demo_image).
  - reflexivity.
  - discriminate.
  - by vm_compute.
  - by vm_compute.
Defined.
